(** * Search engine and decoration layers of the nexus code editor

    Shallow embedding of
    - [src/src/code_editor/models/search_model.py] (SearchMatch, SearchModel),
    - [src/code_editor/services/search_service.py] (the SearchModel based
      SearchService with [_find_plain_matches] and [_find_regex_matches]),
    - [src/src/code_editor/services/search_service.py] (the SearchService used
      by the editor widget, with [needs_research]),
    - [src/src/code_editor/services/decoration_service.py],
    - the search protocol of [src/src/code_editor/ui/editor_widget.py].

    Positions and indices are Python integers, modelled as [Z].  The
    document text is a list of characters; QTextDocument's
    [characterCount()] is its length plus the final paragraph separator. *)

From Stdlib Require Import ZArith Ascii String List Bool Lia Sorted Permutation.
Import ListNotations.
Open Scope Z_scope.

(** ** Python-level helpers *)

(** Outcome of a Python computation that may raise. *)
Inductive py_result (A : Type) : Type :=
| Raise : py_result A
| Ok : A -> py_result A.
Arguments Raise {A}.
Arguments Ok {A} _.

(** [lst[i]] on a Python list: negative indices count from the end,
    anything else out of range raises [IndexError]. *)
Definition py_index {A : Type} (l : list A) (i : Z) : py_result A :=
  let n := Z.of_nat (length l) in
  let j := if i <? 0 then i + n else i in
  if (0 <=? j) && (j <? n) then
    match nth_error l (Z.to_nat j) with
    | Some x => Ok x
    | None => Raise
    end
  else Raise.

(** Python's [%] with a positive divisor is [Z.modulo]. *)
Definition py_mod (a b : Z) : Z := a mod b.

(** ** models/search_model.py *)

(** A QTextCursor holding a selection, as (anchor, position). *)
Record QTextCursor := mkCursor { anchor : Z; position : Z }.

Definition selectionStart (c : QTextCursor) : Z := Z.min (anchor c) (position c).
Definition selectionEnd (c : QTextCursor) : Z := Z.max (anchor c) (position c).

Record SearchMatch := mkMatch {
  cursor : QTextCursor;
  start : Z;
  end_ : Z;
  text : list ascii
}.

(** [SearchMatch.from_cursor]: the selected text is read from the document. *)
Definition selectedText (doc : list ascii) (c : QTextCursor) : list ascii :=
  firstn (Z.to_nat (selectionEnd c - selectionStart c))
         (skipn (Z.to_nat (selectionStart c)) doc).

Definition from_cursor (doc : list ascii) (c : QTextCursor) : SearchMatch :=
  {| cursor := c; start := selectionStart c; end_ := selectionEnd c;
     text := selectedText doc c |}.

Record SearchModel := mkModel {
  pattern : list ascii;
  case_sensitive : bool;
  use_regex : bool;
  whole_word : bool;
  matches : list SearchMatch;
  current_index : Z
}.

Definition SearchModel_init : SearchModel :=
  {| pattern := []; case_sensitive := false; use_regex := false;
     whole_word := false; matches := []; current_index := -1 |}.

Definition set_current_index (m : SearchModel) (v : Z) : SearchModel :=
  {| pattern := pattern m; case_sensitive := case_sensitive m;
     use_regex := use_regex m; whole_word := whole_word m;
     matches := matches m; current_index := v |}.

Definition set_criteria (m : SearchModel) (p : list ascii) (cs re ww : bool)
  : SearchModel :=
  {| pattern := p; case_sensitive := cs; use_regex := re; whole_word := ww;
     matches := matches m; current_index := current_index m |}.

(** The [current_match] property. *)
Definition current_match (m : SearchModel) : py_result (option SearchMatch) :=
  if (0 <=? current_index m) && (current_index m <? Z.of_nat (length (matches m)))
  then match py_index (matches m) (current_index m) with
       | Ok x => Ok (Some x)
       | Raise => Raise
       end
  else Ok None.

Definition match_count (m : SearchModel) : Z := Z.of_nat (length (matches m)).

Definition clear_matches (m : SearchModel) : SearchModel :=
  {| pattern := pattern m; case_sensitive := case_sensitive m;
     use_regex := use_regex m; whole_word := whole_word m;
     matches := []; current_index := -1 |}.

Definition set_matches (m : SearchModel) (ms : list SearchMatch) : SearchModel :=
  {| pattern := pattern m; case_sensitive := case_sensitive m;
     use_regex := use_regex m; whole_word := whole_word m;
     matches := ms; current_index := match ms with [] => -1 | _ => 0 end |}.

Definition next_match (m : SearchModel)
  : SearchModel * py_result (option SearchMatch) :=
  match matches m with
  | [] => (m, Ok None)
  | _ =>
      let m' := set_current_index m
                  (py_mod (current_index m + 1) (Z.of_nat (length (matches m)))) in
      (m', current_match m')
  end.

Definition previous_match (m : SearchModel)
  : SearchModel * py_result (option SearchMatch) :=
  match matches m with
  | [] => (m, Ok None)
  | _ =>
      let m' := set_current_index m
                  (py_mod (current_index m - 1) (Z.of_nat (length (matches m)))) in
      (m', current_match m')
  end.

Definition has_matches (m : SearchModel) : bool :=
  Z.of_nat (length (matches m)) >? 0.

(** ** The host document (PyQt5 QTextDocument and QRegExp)

    The search loops call three primitives of Qt, which is not part of the
    repository: [QTextDocument.find(str, cursor, flags)],
    [QRegExp(pattern)] and [QTextDocument.find(QRegExp, cursor, flags)].
    They are fields of the host record; the searches start at
    [cursor.selectionEnd()], as Qt's forward [find] does.  The regular
    expression primitives may raise. *)

Record FindFlags := mkFlags { FindCaseSensitively : bool; FindWholeWords : bool }.

Record QRegExp := mkRegExp { rx_pattern : list ascii; rx_case_sensitive : bool }.

Definition setCaseSensitivity (rx : QRegExp) (cs : bool) : QRegExp :=
  {| rx_pattern := rx_pattern rx; rx_case_sensitive := cs |}.

Record Host := mkHost {
  plainText : list ascii;
  doc_find : list ascii -> FindFlags -> Z -> option QTextCursor;
  new_QRegExp : list ascii -> py_result QRegExp;
  doc_find_regexp : QRegExp -> FindFlags -> Z -> py_result (option QTextCursor)
}.

Definition characterCount (h : Host) : Z := Z.of_nat (length (plainText h)) + 1.

(** [QTextCursor(document)]: a cursor at position 0. *)
Definition cursor0 : QTextCursor := mkCursor 0 0.

(** [cursor.movePosition(QTextCursor.NextCharacter)]: one character to the
    right, unless already at the last position [characterCount() - 1]. *)
Definition moveNextCharacter (h : Host) (c : QTextCursor) : QTextCursor :=
  let p := if position c + 1 <=? characterCount h - 1 then position c + 1
           else position c in
  mkCursor p p.

(** ** services/search_service.py (SearchModel based version) *)

Definition MAX_ITERATIONS : Z := 10000.

Section PlainScan.
Variables (h : Host) (pat : list ascii) (flags : FindFlags).

(** The [while iteration_count < MAX_ITERATIONS] loop of
    [_find_plain_matches]; [fuel] is [MAX_ITERATIONS - iteration_count]. *)
Fixpoint plain_loop (fuel : nat) (c : QTextCursor) (last_position : Z)
         (acc : list SearchMatch) : list SearchMatch :=
  match fuel with
  | O => acc
  | S f =>
      match doc_find h pat flags (selectionEnd c) with
      | None => acc
      | Some c' =>
          let current_position := position c' in
          if current_position =? last_position then acc
          else if current_position >=? characterCount h then acc
          else plain_loop f c' current_position
                 (acc ++ [from_cursor (plainText h) c'])
      end
  end.
End PlainScan.

Definition find_plain_matches (h : Host) (pat : list ascii) (flags : FindFlags)
  : list SearchMatch :=
  plain_loop h pat flags (Z.to_nat MAX_ITERATIONS) cursor0 (-1) [].

(** How the loop of [_find_regex_matches] was left. *)
Inductive loop_exit := Finished | Raised.

Section RegexScan.
Variables (h : Host) (rx : QRegExp) (flags : FindFlags).

(** The [while iteration_count < MAX_ITERATIONS] loop of
    [_find_regex_matches].  The zero-width branch [continue]s without
    counting an iteration, so the loop is run on a budget of passes:
    [None] means the budget ran out before the loop ended. *)
Fixpoint regex_loop (budget : nat) (c : QTextCursor) (last_position : Z)
         (iteration_count : Z) (acc : list SearchMatch)
  : option (loop_exit * list SearchMatch) :=
  match budget with
  | O => None
  | S b =>
      if iteration_count <? MAX_ITERATIONS then
        match doc_find_regexp h rx flags (selectionEnd c) with
        | Raise => Some (Raised, acc)
        | Ok None => Some (Finished, acc)
        | Ok (Some c') =>
            let current_position := position c' in
            if current_position =? last_position then
              let c'' := moveNextCharacter h c' in
              if position c'' =? current_position then Some (Finished, acc)
              else regex_loop b c'' last_position iteration_count acc
            else if current_position >=? characterCount h then Some (Finished, acc)
            else regex_loop b c' current_position (iteration_count + 1)
                   (acc ++ [from_cursor (plainText h) c'])
        end
      else Some (Finished, acc)
  end.
End RegexScan.

(** Passes of the regex loop allowed to the model: two per counted
    iteration, and the final test. *)
Definition regex_budget : nat := Z.to_nat (2 * MAX_ITERATIONS + 2).

(** The [try] block of [_find_regex_matches]: [matches] is the list the
    loop appends to, so on an exception it holds what was found so far. *)
Definition find_regex_try (h : Host) (pat : list ascii) (flags : FindFlags)
           (cs : bool) : option (loop_exit * list SearchMatch) :=
  match new_QRegExp h pat with
  | Raise => Some (Raised, [])
  | Ok rx =>
      let rx' := if cs then rx else setCaseSensitivity rx false in
      regex_loop h rx' flags regex_budget cursor0 (-1) 0 []
  end.

(** [except Exception: pass] followed by [return matches]. *)
Definition find_regex_matches (h : Host) (pat : list ascii) (flags : FindFlags)
           (cs : bool) : option (list SearchMatch) :=
  match find_regex_try h pat flags cs with
  | Some (_, ms) => Some ms
  | None => None
  end.

Definition find_all_matches (h : Host) (pat : list ascii) (cs re ww : bool)
  : option (list SearchMatch) :=
  let flags := mkFlags cs ww in
  if re then find_regex_matches h pat flags cs
  else Some (find_plain_matches h pat flags).

(** [SearchService.search]: [None] only when the regex loop did not finish
    within [regex_budget] passes. *)
Definition search (h : Host) (m : SearchModel) (pat : list ascii) (cs re ww : bool)
  : option (SearchModel * Z) :=
  let m1 := clear_matches (set_criteria m pat cs re ww) in
  match pat with
  | [] => Some (m1, 0)
  | _ =>
      match find_all_matches h pat cs re ww with
      | None => None
      | Some ms => let m2 := set_matches m1 ms in Some (m2, match_count m2)
      end
  end.

Definition svc_next_match (m : SearchModel) := next_match m.
Definition svc_previous_match (m : SearchModel) := previous_match m.

(** [SearchService.clear]. *)
Definition svc_clear (m : SearchModel) : SearchModel :=
  let m1 := clear_matches m in
  {| pattern := []; case_sensitive := case_sensitive m1; use_regex := use_regex m1;
     whole_word := whole_word m1; matches := matches m1;
     current_index := current_index m1 |}.

(** ** A concrete host

    Qt's literal [find]: the leftmost occurrence at or after the start
    position, inside one text block (so a pattern holding a newline is
    never found), compared case-insensitively unless
    [FindCaseSensitively]; with [FindWholeWords] a hit next to a letter or
    digit is skipped and the search resumes one past its end. *)

Definition is_newline (c : ascii) : bool := Ascii.eqb c "010"%char.

Definition to_lower (c : ascii) : ascii :=
  let n := nat_of_ascii c in
  if (65 <=? n)%nat && (n <=? 90)%nat then ascii_of_nat (n + 32) else c.

Definition char_eq (cs : bool) (a b : ascii) : bool :=
  if cs then Ascii.eqb a b else Ascii.eqb (to_lower a) (to_lower b).

Fixpoint prefix_eq (cs : bool) (p l : list ascii) : bool :=
  match p, l with
  | [], _ => true
  | a :: p', b :: l' => char_eq cs a b && prefix_eq cs p' l'
  | _ :: _, [] => false
  end.

(** Leftmost occurrence of [p] in [l], [l] starting at offset [i]. *)
Fixpoint index_from (cs : bool) (p l : list ascii) (i : Z) : option Z :=
  if prefix_eq cs p l then Some i
  else match l with
       | [] => None
       | _ :: t => index_from cs p t (i + 1)
       end.

Definition is_letter_or_number (c : ascii) : bool :=
  let n := nat_of_ascii c in
  ((48 <=? n)%nat && (n <=? 57)%nat) || ((65 <=? n)%nat && (n <=? 90)%nat)
  || ((97 <=? n)%nat && (n <=? 122)%nat).

Definition word_char_at (t : list ascii) (i : Z) : bool :=
  if i <? 0 then false
  else match nth_error t (Z.to_nat i) with
       | Some c => is_letter_or_number c
       | None => false
       end.

Fixpoint qt_find_fuel (fuel : nat) (cs ww : bool) (pat t : list ascii) (from : Z)
  : option QTextCursor :=
  match fuel with
  | O => None
  | S f =>
      match index_from cs pat (skipn (Z.to_nat from) t) from with
      | None => None
      | Some idx =>
          let e := idx + Z.of_nat (length pat) in
          if ww && (word_char_at t (idx - 1) || word_char_at t e)
          then qt_find_fuel f cs ww pat t (e + 1)
          else Some (mkCursor idx e)
      end
  end.

Definition qt_find (t pat : list ascii) (flags : FindFlags) (from : Z)
  : option QTextCursor :=
  if existsb is_newline pat then None
  else qt_find_fuel (S (length t)) (FindCaseSensitively flags)
         (FindWholeWords flags) pat t from.

(** Qt's regular-expression [find] for the pattern [.*]: from the start
    position to the end of its text block.  Other patterns find nothing
    in this engine. *)
Fixpoint line_end (l : list ascii) (i : Z) : Z :=
  match l with
  | [] => i
  | c :: t => if is_newline c then i else line_end t (i + 1)
  end.

Definition dotstar : list ascii := list_ascii_of_string ".*".

Definition dotstar_find (t : list ascii) (rx : QRegExp) (_ : FindFlags) (from : Z)
  : py_result (option QTextCursor) :=
  if prefix_eq true (rx_pattern rx) dotstar
     && (length (rx_pattern rx) =? length dotstar)%nat
     && (0 <=? from) && (from <=? Z.of_nat (length t))
  then Ok (Some (mkCursor from (line_end (skipn (Z.to_nat from) t) from)))
  else Ok None.

Definition qt_host (t : list ascii) : Host :=
  {| plainText := t; doc_find := qt_find t;
     new_QRegExp := fun p => Ok (mkRegExp p true);
     doc_find_regexp := dotstar_find t |}.

Definition str (s : string) : list ascii := list_ascii_of_string s.

Definition starts (ms : list SearchMatch) : list Z := map start ms.

(** ** services/decoration_service.py *)

Inductive DecorationLayer := CUSTOM | CURRENT_LINE | SEARCH_MATCHES | CURRENT_MATCH.

(** [auto()] values, and the iteration order of the enum. *)
Definition layer_value (l : DecorationLayer) : Z :=
  match l with CUSTOM => 1 | CURRENT_LINE => 2 | SEARCH_MATCHES => 3 | CURRENT_MATCH => 4 end.

Definition all_layers : list DecorationLayer :=
  [CUSTOM; CURRENT_LINE; SEARCH_MATCHES; CURRENT_MATCH].

Definition layer_eqb (a b : DecorationLayer) : bool := layer_value a =? layer_value b.

(** [sorted(..., key=...)]: a stable insertion sort. *)
Fixpoint insert_by {A : Type} (key : A -> Z) (x : A) (l : list A) : list A :=
  match l with
  | [] => [x]
  | y :: t => if key y <=? key x then y :: insert_by key x t else x :: y :: t
  end.

Fixpoint sorted_by {A : Type} (key : A -> Z) (l : list A) : list A :=
  match l with
  | [] => []
  | x :: t => insert_by key x (sorted_by key t)
  end.

Record QColor := mkColor { rgb : Z }.

Record Decoration := mkDecoration {
  d_cursor : QTextCursor; bg_color : QColor; full_width : bool }.

(** [QTextEdit.ExtraSelection] with its format's background and
    [FullWidthSelection] property. *)
Record ExtraSelection := mkSelection {
  sel_cursor : QTextCursor; sel_background : QColor; sel_full_width : bool }.

Definition to_extra_selection (d : Decoration) : ExtraSelection :=
  {| sel_cursor := d_cursor d; sel_background := bg_color d;
     sel_full_width := if full_width d then true else false |}.

(** The layer dictionary, and the calls made to the editor's
    [setExtraSelections] so far (oldest first). *)
Record DecorationService := mkDecoService {
  layers : DecorationLayer -> list Decoration;
  setExtraSelections_calls : list (list ExtraSelection)
}.

Definition DecorationService_init : DecorationService :=
  {| layers := fun _ => []; setExtraSelections_calls := [] |}.

Definition set_layer (s : DecorationService) (l : DecorationLayer)
           (v : list Decoration) : DecorationService :=
  {| layers := fun l' => if layer_eqb l l' then v else layers s l';
     setExtraSelections_calls := setExtraSelections_calls s |}.

Definition add_decoration (s : DecorationService) (l : DecorationLayer)
           (c : QTextCursor) (color : QColor) (fw : bool) : DecorationService :=
  set_layer s l (layers s l ++ [mkDecoration c color fw]).

Definition clear_layer (s : DecorationService) (l : DecorationLayer)
  : DecorationService :=
  set_layer s l [].

Definition clear_all (s : DecorationService) : DecorationService :=
  fold_left clear_layer all_layers s.

Definition apply (s : DecorationService) : DecorationService :=
  let all_decorations := flat_map (layers s) (sorted_by layer_value all_layers) in
  let selections := map to_extra_selection all_decorations in
  {| layers := layers s;
     setExtraSelections_calls := setExtraSelections_calls s ++ [selections] |}.

Definition get_layer_count (s : DecorationService) (l : DecorationLayer) : Z :=
  Z.of_nat (length (layers s l)).

(** Calls other than [apply]. *)
Inductive DecoCall :=
| CallAdd (l : DecorationLayer) (c : QTextCursor) (color : QColor) (fw : bool)
| CallClearLayer (l : DecorationLayer)
| CallClearAll.

Definition run_call (s : DecorationService) (k : DecoCall) : DecorationService :=
  match k with
  | CallAdd l c color fw => add_decoration s l c color fw
  | CallClearLayer l => clear_layer s l
  | CallClearAll => clear_all s
  end.

Definition run_calls (s : DecorationService) (ks : list DecoCall) : DecorationService :=
  fold_left run_call ks s.

(** What a layer holds after some calls: the decorations added to it
    since it was last cleared, in the order they were added. *)
Definition layer_after (l : DecorationLayer) (init : list Decoration)
           (ks : list DecoCall) : list Decoration :=
  fold_left (fun acc k =>
               match k with
               | CallAdd l' c color fw =>
                   if layer_eqb l' l then acc ++ [mkDecoration c color fw] else acc
               | CallClearLayer l' => if layer_eqb l' l then [] else acc
               | CallClearAll => []
               end) ks init.

(** ** services/search_service.py used by the editor widget *)

Record SearchService := mkService {
  svc_matches : list SearchMatch;
  svc_current_index : Z;
  last_pattern : list ascii;
  last_case_sensitive : bool;
  last_use_regex : bool;
  last_whole_word : bool
}.

Definition SearchService_init : SearchService :=
  {| svc_matches := []; svc_current_index := -1; last_pattern := [];
     last_case_sensitive := false; last_use_regex := false;
     last_whole_word := false |}.

Definition max_iterations : Z := 10000.

Section EditorScan.
Variables (h : Host) (flags : FindFlags).

(** Plain loop of [search]: [while not cursor.isNull() and
    iteration_count < max_iterations]; [fuel] is
    [max_iterations - iteration_count]. *)
Fixpoint svc_plain_loop (pat : list ascii) (fuel : nat) (c : option QTextCursor)
         (last_position : Z) (acc : list SearchMatch) : list SearchMatch :=
  match c, fuel with
  | None, _ | _, O => acc
  | Some c, S f =>
      let current_pos := position c in
      if current_pos =? last_position then acc
      else if (current_pos <? 0) || (current_pos >=? characterCount h) then acc
      else svc_plain_loop pat f (doc_find h pat flags (selectionEnd c)) current_pos
             (acc ++ [from_cursor (plainText h) c])
  end.

(** Regex loop of [search].  No [try]: an exception of the matcher
    leaves the loop with the matches appended so far. *)
Fixpoint svc_regex_loop (rx : QRegExp) (fuel : nat) (c : option QTextCursor)
         (last_position : Z) (acc : list SearchMatch)
  : list SearchMatch * py_result unit :=
  match c, fuel with
  | None, _ | _, O => (acc, Ok tt)
  | Some c, S f =>
      let current_pos := position c in
      if current_pos =? last_position then
        let next_pos := current_pos + 1 in
        if next_pos >=? characterCount h then (acc, Ok tt)
        else match doc_find_regexp h rx flags next_pos with
             | Raise => (acc, Raise)
             | Ok c' => svc_regex_loop rx f c' last_position acc
             end
      else if (current_pos <? 0) || (current_pos >=? characterCount h) then (acc, Ok tt)
      else
        let acc' := acc ++ [from_cursor (plainText h) c] in
        match doc_find_regexp h rx flags (selectionEnd c) with
        | Raise => (acc', Raise)
        | Ok c' => svc_regex_loop rx f c' current_pos acc'
        end
  end.
End EditorScan.

Definition with_matches (s : SearchService) (ms : list SearchMatch) (i : Z)
  : SearchService :=
  {| svc_matches := ms; svc_current_index := i; last_pattern := last_pattern s;
     last_case_sensitive := last_case_sensitive s; last_use_regex := last_use_regex s;
     last_whole_word := last_whole_word s |}.

(** [SearchService.search]; [self._matches] is appended to in place, so an
    exception leaves the matches found so far in the service. *)
Definition svc_search (h : Host) (s : SearchService) (pat : list ascii) (cs re ww : bool)
  : SearchService * py_result Z :=
  let s1 := {| svc_matches := []; svc_current_index := -1; last_pattern := pat;
               last_case_sensitive := cs; last_use_regex := re;
               last_whole_word := ww |} in
  let finish (ms : list SearchMatch) :=
    (with_matches s1 ms (match ms with [] => -1 | _ => 0 end),
     Ok (Z.of_nat (length ms))) in
  let fuel := Z.to_nat max_iterations in
  let flags := mkFlags cs ww in
  match pat with
  | [] => (s1, Ok 0)
  | _ =>
      if re then
        match new_QRegExp h pat with
        | Raise => (s1, Raise)
        | Ok rx =>
            let rx' := if cs then rx else setCaseSensitivity rx false in
            match doc_find_regexp h rx' flags (selectionEnd cursor0) with
            | Raise => (s1, Raise)
            | Ok c =>
                match svc_regex_loop h flags rx' fuel c (-1) [] with
                | (ms, Raise) => (with_matches s1 ms (-1), Raise)
                | (ms, Ok _) => finish ms
                end
            end
        end
      else finish (svc_plain_loop h flags pat fuel
                     (doc_find h pat flags (selectionEnd cursor0)) (-1) [])
  end.

Definition get_current_match (s : SearchService) : option SearchMatch :=
  if (0 <=? svc_current_index s)
     && (svc_current_index s <? Z.of_nat (length (svc_matches s)))
  then nth_error (svc_matches s) (Z.to_nat (svc_current_index s))
  else None.

Fixpoint chars_eqb (a b : list ascii) : bool :=
  match a, b with
  | [], [] => true
  | x :: a', y :: b' => Ascii.eqb x y && chars_eqb a' b'
  | _, _ => false
  end.

Definition needs_research (s : SearchService) (pat : list ascii) (cs re ww : bool)
  : bool :=
  negb (chars_eqb pat (last_pattern s))
  || negb (Bool.eqb cs (last_case_sensitive s))
  || negb (Bool.eqb re (last_use_regex s))
  || negb (Bool.eqb ww (last_whole_word s))
  || (Z.of_nat (length (svc_matches s)) =? 0).

(** ** ui/editor_widget.py: the search protocol *)

(** The editor's search service, decoration service, text cursor and the
    match count shown by the search popup ([None] while no popup exists). *)
Record Editor := mkEditor {
  e_svc : SearchService;
  e_deco : DecorationService;
  e_text_cursor : QTextCursor;
  e_popup_count : option (Z * Z)
}.

Definition update_match_count (p : option (Z * Z)) (cur total : Z) : option (Z * Z) :=
  match p with None => None | Some _ => Some (cur, total) end.

Section Facade.
Variables (h : Host) (theme_search_match theme_current_match : QColor).

Definition clear_search_layers (d : DecorationService) : DecorationService :=
  clear_layer (clear_layer d SEARCH_MATCHES) CURRENT_MATCH.

Definition add_match_decorations (d : DecorationService) (ms : list SearchMatch)
  : DecorationService :=
  fold_left (fun d m => add_decoration d SEARCH_MATCHES (cursor m)
                          theme_search_match false) ms d.

(** [if current_match: add it on CURRENT_MATCH and move the cursor]. *)
Definition add_current_decoration (s : SearchService) (d : DecorationService)
           (tc : QTextCursor) : DecorationService * QTextCursor :=
  match get_current_match s with
  | Some cm => (add_decoration d CURRENT_MATCH (cursor cm) theme_current_match false,
                cursor cm)
  | None => (d, tc)
  end.

Definition restore_search_highlights (e : Editor) : Editor :=
  let d1 := clear_search_layers (e_deco e) in
  let s := e_svc e in
  match svc_matches s with
  | [] => {| e_svc := s; e_deco := apply d1; e_text_cursor := e_text_cursor e;
             e_popup_count := e_popup_count e |}
  | ms =>
      let d2 := add_match_decorations d1 ms in
      let '(d3, tc) := add_current_decoration s d2 (e_text_cursor e) in
      {| e_svc := s; e_deco := apply d3; e_text_cursor := tc;
         e_popup_count := update_match_count (e_popup_count e)
                            (svc_current_index s + 1) (Z.of_nat (length ms)) |}
  end.

Definition on_search_requested (e : Editor) (pat : list ascii) (cs re ww : bool)
  : Editor * py_result unit :=
  match pat with
  | [] =>
      let d1 := clear_search_layers (e_deco e) in
      let '(s1, r) := svc_search h (e_svc e) [] cs re ww in
      match r with
      | Raise => ({| e_svc := s1; e_deco := d1; e_text_cursor := e_text_cursor e;
                     e_popup_count := e_popup_count e |}, Raise)
      | Ok _ => ({| e_svc := s1; e_deco := apply d1; e_text_cursor := e_text_cursor e;
                    e_popup_count := update_match_count (e_popup_count e) 0 0 |}, Ok tt)
      end
  | _ =>
      if negb (needs_research (e_svc e) pat cs re ww)
      then (restore_search_highlights e, Ok tt)
      else
        let d1 := clear_search_layers (e_deco e) in
        let '(s1, r) := svc_search h (e_svc e) pat cs re ww in
        match r with
        | Raise => ({| e_svc := s1; e_deco := d1; e_text_cursor := e_text_cursor e;
                       e_popup_count := e_popup_count e |}, Raise)
        | Ok count =>
            if count >? 0 then
              let d2 := add_match_decorations d1 (svc_matches s1) in
              let '(d3, tc) := add_current_decoration s1 d2 (e_text_cursor e) in
              ({| e_svc := s1; e_deco := apply d3; e_text_cursor := tc;
                  e_popup_count := update_match_count (e_popup_count e) 1 count |},
               Ok tt)
            else
              ({| e_svc := s1; e_deco := apply d1; e_text_cursor := e_text_cursor e;
                  e_popup_count := update_match_count (e_popup_count e) 0 0 |}, Ok tt)
        end
  end.
End Facade.

(** ** Replace all *)

(** Modelled from the spec: [SearchService.replace_all], which
    [_on_replace_all] calls but which no search service under [src/]
    defines.  Section 4.2: every match of the current match list is
    replaced, highest start offset first, through the document's
    [replaceRange(start, end, text)]; the number of replacements is
    returned; the matches are cleared and the current index reset to -1. *)
Definition replaceRange (t : list ascii) (s e : Z) (r : list ascii) : list ascii :=
  firstn (Z.to_nat s) t ++ r ++ skipn (Z.to_nat e) t.

Definition replace_order (ms : list SearchMatch) : list SearchMatch :=
  sorted_by (fun m => - start m) ms.

Definition replace_all (t : list ascii) (s : SearchService) (r : list ascii)
  : list ascii * SearchService * Z :=
  let t' := fold_left (fun acc m => replaceRange acc (start m) (end_ m) r)
                      (replace_order (svc_matches s)) t in
  (t', with_matches s [] (-1), Z.of_nat (length (svc_matches s))).

(** ** Non-overlapping occurrences of a literal

    Walking the text left to right: at an occurrence, count it and jump
    past it, otherwise move one character on.  A pattern holding a
    newline has no occurrence inside a line. *)
Fixpoint greedy_occ (fuel : nat) (cs : bool) (pat l : list ascii) (i : Z) : list Z :=
  match fuel with
  | O => []
  | S f =>
      if prefix_eq cs pat l
      then i :: greedy_occ f cs pat (skipn (length pat) l) (i + Z.of_nat (length pat))
      else match l with
           | [] => []
           | _ :: t => greedy_occ f cs pat t (i + 1)
           end
  end.

Definition occurrences (cs : bool) (pat t : list ascii) : list Z :=
  if existsb is_newline pat then [] else greedy_occ (S (length t)) cs pat t 0.

(** ** Sessions of the SearchModel based service

    The states a fresh service reaches through [search] (on any document,
    which may change between calls), [next_match], [previous_match] and
    [clear]. *)
Inductive reachable : SearchModel -> Prop :=
| reach_init : reachable SearchModel_init
| reach_search : forall h m pat cs re ww m' n,
    reachable m -> search h m pat cs re ww = Some (m', n) -> reachable m'
| reach_next : forall m, reachable m -> reachable (fst (svc_next_match m))
| reach_previous : forall m, reachable m -> reachable (fst (svc_previous_match m))
| reach_clear : forall m, reachable m -> reachable (svc_clear m).

Definition index_ok (m : SearchModel) : Prop :=
  (current_index m = -1 <-> matches m = []) /\
  (matches m <> [] -> 0 <= current_index m <= Z.of_nat (length (matches m)) - 1).

(** [k] calls of [next_match] (resp. [previous_match]): the final state
    and the values returned, in call order. *)
Fixpoint next_times (k : nat) (m : SearchModel)
  : SearchModel * list (py_result (option SearchMatch)) :=
  match k with
  | O => (m, [])
  | S k' => let '(m1, r) := next_match m in
            let '(m2, rs) := next_times k' m1 in (m2, r :: rs)
  end.

Fixpoint previous_times (k : nat) (m : SearchModel)
  : SearchModel * list (py_result (option SearchMatch)) :=
  match k with
  | O => (m, [])
  | S k' => let '(m1, r) := previous_match m in
            let '(m2, rs) := previous_times k' m1 in (m2, r :: rs)
  end.

Definition sample_match : SearchMatch :=
  {| cursor := mkCursor 0 1; start := 0; end_ := 1; text := str "a" |}.

(** One match, and the current index set to -1 through the public setter. *)
Definition model_unset_index : SearchModel :=
  set_current_index (set_matches SearchModel_init [sample_match]) (-1).


(** The match a literal hit at [j] of length [len] becomes. *)
Definition literal_match (t : list ascii) (len j : Z) : SearchMatch :=
  from_cursor t (mkCursor j (j + len)).

Definition big_doc : list ascii := repeat "a"%char (Z.to_nat 10001).

(** ** More of services/search_service.py used by the editor widget *)

(** [next_match]: [self._matches[self._current_index]] after the index
    wrapped with [%]. *)
Definition service_next_match (s : SearchService)
  : SearchService * py_result (option SearchMatch) :=
  match svc_matches s with
  | [] => (s, Ok None)
  | ms =>
      let i := py_mod (svc_current_index s + 1) (Z.of_nat (length ms)) in
      (with_matches s ms i,
       match py_index ms i with Ok x => Ok (Some x) | Raise => Raise end)
  end.

Definition service_previous_match (s : SearchService)
  : SearchService * py_result (option SearchMatch) :=
  match svc_matches s with
  | [] => (s, Ok None)
  | ms =>
      let i := py_mod (svc_current_index s - 1) (Z.of_nat (length ms)) in
      (with_matches s ms i,
       match py_index ms i with Ok x => Ok (Some x) | Raise => Raise end)
  end.

(** [clear]: the last criteria are kept. *)
Definition service_clear (s : SearchService) : SearchService :=
  with_matches s [] (-1).

(** The SearchModel holding the same matches, index and criteria. *)
Definition service_model (s : SearchService) : SearchModel :=
  {| pattern := last_pattern s; case_sensitive := last_case_sensitive s;
     use_regex := last_use_regex s; whole_word := last_whole_word s;
     matches := svc_matches s; current_index := svc_current_index s |}.

(** ** More of services/decoration_service.py *)

(** [has_decorations(layer)]; [None] asks about every layer. *)
Definition has_decorations (s : DecorationService) (layer : option DecorationLayer)
  : bool :=
  match layer with
  | Some l => Z.of_nat (length (layers s l)) >? 0
  | None => existsb (fun l => Z.of_nat (length (layers s l)) >? 0) all_layers
  end.

(** ** More of ui/editor_widget.py *)

(** The [type_to_layer] dictionary of [clear_decorations]. *)
Definition type_to_layer (t : string) : option DecorationLayer :=
  if String.eqb t "search"%string then Some SEARCH_MATCHES
  else if String.eqb t "current_match"%string then Some CURRENT_MATCH
  else if String.eqb t "current_line"%string then Some CURRENT_LINE
  else if String.eqb t "custom"%string then Some CUSTOM
  else None.

(** [clear_decorations(decoration_type)]: [if decoration_type:] is false
    for [None] and for the empty string. *)
Definition clear_decorations (d : DecorationService) (decoration_type : option string)
  : DecorationService :=
  let d1 :=
    match decoration_type with
    | Some t =>
        if negb (String.eqb t EmptyString) then
          match type_to_layer t with
          | Some l => clear_layer d l
          | None => d
          end
        else clear_all d
    | None => clear_all d
    end in
  apply d1.




Section EditorSearch.
Variables (h : Host) (theme_search_match theme_current_match : QColor).

(** [CodeEditor.search(pattern, regex)]: case-insensitive, whole words
    off.  An exception of the service leaves before any decoration call. *)
Definition editor_search (e : Editor) (pat : list ascii) (regex : bool)
  : Editor * py_result Z :=
  let '(s1, r) := svc_search h (e_svc e) pat false regex false in
  match r with
  | Raise => ({| e_svc := s1; e_deco := e_deco e; e_text_cursor := e_text_cursor e;
                 e_popup_count := e_popup_count e |}, Raise)
  | Ok count =>
      let d1 := clear_layer (e_deco e) SEARCH_MATCHES in
      let d2 := if count >? 0
                then add_match_decorations theme_search_match d1 (svc_matches s1)
                else d1 in
      ({| e_svc := s1; e_deco := apply d2; e_text_cursor := e_text_cursor e;
          e_popup_count := e_popup_count e |}, Ok count)
  end.

(** [clear_search]. *)
Definition clear_search (e : Editor) : Editor :=
  {| e_svc := service_clear (e_svc e);
     e_deco := clear_decorations (e_deco e) (Some "search"%string);
     e_text_cursor := e_text_cursor e; e_popup_count := e_popup_count e |}.




End EditorSearch.

(** *** The line data API

    The document as its list of blocks (QTextBlock): each block's text and
    its user data.  [findBlockByNumber] answers an invalid block outside
    [0, blockCount() - 1]; [QTextCursor(block)] sits at [block.position()],
    the characters of the blocks before it, one separator each. *)

Record LineData (A : Type) := mkLineData {
  payload : A; ld_bg_color : option QColor; tags : list string }.
Arguments mkLineData {A} _ _ _.
Arguments payload {A} _.
Arguments ld_bg_color {A} _.
Arguments tags {A} _.

Record QTextBlock (A : Type) := mkBlock {
  block_text : list ascii; user_data : option (LineData A) }.
Arguments mkBlock {A} _ _.
Arguments block_text {A} _.
Arguments user_data {A} _.

Section LineDataAPI.
Context {A : Type}.

Definition findBlockByNumber (bs : list (QTextBlock A)) (n : Z) : option (QTextBlock A) :=
  if (0 <=? n) && (n <? Z.of_nat (length bs)) then nth_error bs (Z.to_nat n) else None.

Fixpoint list_set (l : list (QTextBlock A)) (n : nat) (b : QTextBlock A)
  : list (QTextBlock A) :=
  match l, n with
  | [], _ => []
  | _ :: t, O => b :: t
  | x :: t, S n' => x :: list_set t n' b
  end.

Definition block_position (bs : list (QTextBlock A)) (n : Z) : Z :=
  fold_left (fun acc b => acc + Z.of_nat (length (block_text b)) + 1)
            (firstn (Z.to_nat n) bs) 0.

(** [get_line_data]: [None] for an invalid block, else [block.userData()]. *)
Definition get_line_data (bs : list (QTextBlock A)) (n : Z) : option (LineData A) :=
  match findBlockByNumber bs n with
  | None => None
  | Some b => user_data b
  end.

(** [set_line_data]: the new blocks and the returned boolean. *)
Definition set_line_data (bs : list (QTextBlock A)) (n : Z) (data : LineData A)
  : list (QTextBlock A) * bool :=
  match findBlockByNumber bs n with
  | None => (bs, false)
  | Some b => (list_set bs (Z.to_nat n) (mkBlock (block_text b) (Some data)), true)
  end.

(** [create_line_data]: [LineData(payload, bg_color)] starts with no tags. *)
Definition create_line_data (bs : list (QTextBlock A)) (n : Z) (p : A)
           (bg : option QColor) : list (QTextBlock A) * bool :=
  set_line_data bs n (mkLineData p bg []).

Definition line_count (bs : list (QTextBlock A)) : Z := Z.of_nat (length bs).

Definition get_line_text (bs : list (QTextBlock A)) (n : Z) : option (list ascii) :=
  match findBlockByNumber bs n with
  | None => None
  | Some b => Some (block_text b)
  end.

(** [CodeEditor.add_decoration(line_number, bg_color, decoration_type)]:
    [decoration_type] is not read; nothing happens for an invalid block. *)
Definition editor_add_decoration (bs : list (QTextBlock A)) (e : Editor) (n : Z)
           (bg_color : QColor) (decoration_type : string) : Editor :=
  match findBlockByNumber bs n with
  | None => e
  | Some _ =>
      let p := block_position bs n in
      {| e_svc := e_svc e;
         e_deco := apply (add_decoration (e_deco e) CUSTOM (mkCursor p p) bg_color true);
         e_text_cursor := e_text_cursor e; e_popup_count := e_popup_count e |}
  end.
End LineDataAPI.




(** Editor states used in the instances below: a fresh editor with its
    search popup open, and the state after searching "a" in "aXa". *)
Definition editor_init : Editor :=
  {| e_svc := SearchService_init; e_deco := DecorationService_init;
     e_text_cursor := cursor0; e_popup_count := Some (0, 0) |}.


(** * Proofs *)

Example plain_aXaXa :
  option_map (fun r => starts (matches (fst r)))
    (search (qt_host (str "aXaXa")) SearchModel_init (str "a") false false false)
  = Some [0; 2; 4].
Proof. vm_compute. reflexivity. Qed.

Example regex_abc :
  option_map (fun r => (snd r, starts (matches (fst r))))
    (search (qt_host (str "abc")) SearchModel_init dotstar false true false)
  = Some (1, [0]).
Proof. vm_compute. reflexivity. Qed.

Example regex_two_lines :
  option_map (fun r => map (fun x => (start x, end_ x)) (matches (fst r)))
    (search (qt_host (str "a
bc")) SearchModel_init dotstar false true false)
  = Some [(0, 1); (2, 4)].
Proof. vm_compute. reflexivity. Qed.


(** ** The current match and navigation *)

Lemma py_index_in_range {A : Type} (l : list A) (i : Z) :
  0 <= i < Z.of_nat (length l) ->
  exists x, nth_error l (Z.to_nat i) = Some x /\ py_index l i = Ok x.
Proof.
  intros Hi.
  destruct (nth_error l (Z.to_nat i)) as [x|] eqn:E.
  - exists x; split; [reflexivity|].
    unfold py_index.
    replace (i <? 0) with false by (symmetry; apply Z.ltb_ge; lia).
    replace ((0 <=? i) && (i <? Z.of_nat (length l))) with true
      by (symmetry; apply andb_true_iff; split; [apply Z.leb_le | apply Z.ltb_lt]; lia).
    rewrite E; reflexivity.
  - apply nth_error_None in E; lia.
Qed.

(** C10: the current match is total.  For every current index, also one
    put there through the [current_index] setter, [current_match] does
    not raise: it is the match at that index when
    [0 <= index < len(matches)] and [None] otherwise. *)
Theorem current_match_total (m : SearchModel) :
  current_match m <> Raise /\
  current_match m =
    (if (0 <=? current_index m) && (current_index m <? Z.of_nat (length (matches m)))
     then Ok (nth_error (matches m) (Z.to_nat (current_index m)))
     else Ok None).
Proof.
  unfold current_match.
  destruct ((0 <=? current_index m) && (current_index m <? Z.of_nat (length (matches m))))
    eqn:Hr.
  - apply andb_true_iff in Hr as [H1 H2].
    apply Z.leb_le in H1; apply Z.ltb_lt in H2.
    destruct (py_index_in_range (matches m) (current_index m)) as [x [Hn Hp]]; [lia|].
    rewrite Hp, Hn. split; [discriminate | reflexivity].
  - split; [discriminate | reflexivity].
Qed.

Lemma search_index (h : Host) (m : SearchModel) pat cs re ww m' n :
  search h m pat cs re ww = Some (m', n) ->
  matches m' <> [] /\ current_index m' = 0 /\ n > 0
  \/ matches m' = [] /\ current_index m' = -1 /\ n = 0.
Proof.
  unfold search.
  destruct pat as [|a pat].
  - intros H; inversion H; subst; simpl; right; auto.
  - destruct (find_all_matches h (a :: pat) cs re ww) as [ms|]; [|discriminate].
    intros H; inversion H; subst; clear H.
    unfold match_count, set_matches; simpl.
    destruct ms as [|x ms]; simpl.
    + right; auto.
    + left; split; [discriminate|]; split; [reflexivity | lia].
Qed.

Lemma mod_in_range (a n : Z) : 0 < n -> 0 <= a mod n <= n - 1.
Proof. intros Hn. pose proof (Z.mod_pos_bound a n Hn). lia. Qed.

(** C6: in every state reachable from a fresh service through [search],
    [next_match], [previous_match] and [clear], the current index is -1
    exactly when the match list is empty and lies in [0, len-1] when it is
    not; [search] sets it to 0 when it finds a match and to -1 otherwise. *)
Theorem reachable_index_ok :
  (forall m, reachable m -> index_ok m) /\
  (forall h m pat cs re ww m' n, search h m pat cs re ww = Some (m', n) ->
     (n > 0 /\ current_index m' = 0) \/ (n = 0 /\ current_index m' = -1)).
Proof.
  split.
  - intros m Hr; induction Hr.
    + unfold index_ok; simpl; split; [tauto | intros H; contradiction].
    + destruct (search_index h m pat cs re ww m' n H) as
        [[Hne [Hi _]] | [He [Hi _]]]; unfold index_ok; rewrite Hi.
      * split; [split; [discriminate | intros; contradiction] |].
        intros _. destruct (matches m') as [|x l]; [contradiction|]; cbn [length]; lia.
      * rewrite He; split; [tauto | intros H'; contradiction].
    + unfold svc_next_match, next_match.
      destruct (matches m) as [|x l] eqn:Hm; simpl; [exact IHHr|].
      unfold index_ok, set_current_index, py_mod; simpl; rewrite Hm.
      pose proof (mod_in_range (current_index m + 1) (Z.of_nat (length (x :: l))))
        as Hb.
      simpl length in *.
      split; [split; [intros; lia | discriminate] | intros _; apply Hb; lia].
    + unfold svc_previous_match, previous_match.
      destruct (matches m) as [|x l] eqn:Hm; simpl; [exact IHHr|].
      unfold index_ok, set_current_index, py_mod; simpl; rewrite Hm.
      pose proof (mod_in_range (current_index m - 1) (Z.of_nat (length (x :: l))))
        as Hb.
      simpl length in *.
      split; [split; [intros; lia | discriminate] | intros _; apply Hb; lia].
    + unfold index_ok, svc_clear; simpl; split; [tauto | intros H; contradiction].
  - intros h m pat cs re ww m' n H.
    destruct (search_index h m pat cs re ww m' n H) as [[_ [Hi Hn]] | [_ [Hi Hn]]];
      [left | right]; auto.
Qed.

Lemma set_current_index_twice (m : SearchModel) (a b : Z) :
  set_current_index (set_current_index m a) b = set_current_index m b.
Proof. reflexivity. Qed.

Lemma set_current_index_same (m : SearchModel) :
  set_current_index m (current_index m) = m.
Proof. destruct m; reflexivity. Qed.

Lemma last_cons_cons {A : Type} (r : A) (rs : list A) (d : A) :
  rs <> [] -> last (r :: rs) d = last rs d.
Proof. destruct rs; [contradiction | reflexivity]. Qed.

Lemma next_times_snd_nonempty (k : nat) (m : SearchModel) :
  snd (next_times (S k) m) <> [].
Proof.
  simpl. destruct (next_match m) as [m1 r].
  destruct (next_times k m1) as [m2 rs]. discriminate.
Qed.

Lemma previous_times_snd_nonempty (k : nat) (m : SearchModel) :
  snd (previous_times (S k) m) <> [].
Proof.
  simpl. destruct (previous_match m) as [m1 r].
  destruct (previous_times k m1) as [m2 rs]. discriminate.
Qed.

Lemma next_match_ne (m : SearchModel) :
  matches m <> [] ->
  next_match m =
    (set_current_index m ((current_index m + 1) mod Z.of_nat (length (matches m))),
     current_match (set_current_index m
       ((current_index m + 1) mod Z.of_nat (length (matches m))))).
Proof.
  intros Hne. unfold next_match.
  destruct (matches m) eqn:Hm; [contradiction | reflexivity].
Qed.

Lemma previous_match_ne (m : SearchModel) :
  matches m <> [] ->
  previous_match m =
    (set_current_index m ((current_index m - 1) mod Z.of_nat (length (matches m))),
     current_match (set_current_index m
       ((current_index m - 1) mod Z.of_nat (length (matches m))))).
Proof.
  intros Hne. unfold previous_match.
  destruct (matches m) eqn:Hm; [contradiction | reflexivity].
Qed.

Lemma next_times_S (k : nat) (m : SearchModel) :
  next_times (S k) m =
  let '(m1, r) := next_match m in let '(m2, rs) := next_times k m1 in (m2, r :: rs).
Proof. reflexivity. Qed.

Lemma previous_times_S (k : nat) (m : SearchModel) :
  previous_times (S k) m =
  let '(m1, r) := previous_match m in
  let '(m2, rs) := previous_times k m1 in (m2, r :: rs).
Proof. reflexivity. Qed.

Lemma next_times_spec (k : nat) (m : SearchModel) :
  matches m <> [] ->
  let m' := set_current_index m
              ((current_index m + Z.of_nat (S k)) mod Z.of_nat (length (matches m))) in
  next_times (S k) m = (m', snd (next_times (S k) m)) /\
  last (snd (next_times (S k) m)) Raise = current_match m'.
Proof.
  revert m; induction k as [|k IH]; intros m Hne m'.
  - unfold m'. cbn [next_times]. rewrite (next_match_ne m Hne).
    split; reflexivity.
  - rewrite next_times_S, (next_match_ne m Hne).
    set (m1 := set_current_index m ((current_index m + 1)
                                      mod Z.of_nat (length (matches m)))).
    assert (Hm1 : matches m1 = matches m) by reflexivity.
    assert (Hne1 : matches m1 <> []) by (rewrite Hm1; exact Hne).
    pose proof (next_times_snd_nonempty k m1) as Hnn.
    destruct (IH m1 Hne1) as [Heq Hlast].
    assert (Hidx : set_current_index m1
              ((current_index m1 + Z.of_nat (S k)) mod Z.of_nat (length (matches m1)))
            = m').
    { unfold m', m1. rewrite set_current_index_twice. f_equal.
      cbn [current_index matches set_current_index].
      rewrite Zplus_mod_idemp_l. f_equal. lia. }
    rewrite Hidx in Heq, Hlast.
    destruct (next_times (S k) m1) as [m2 rs] eqn:E.
    simpl in Heq, Hlast, Hnn. inversion Heq; subst m2.
    simpl snd. split; [reflexivity|].
    rewrite last_cons_cons by exact Hnn. exact Hlast.
Qed.

Lemma previous_times_spec (k : nat) (m : SearchModel) :
  matches m <> [] ->
  let m' := set_current_index m
              ((current_index m - Z.of_nat (S k)) mod Z.of_nat (length (matches m))) in
  previous_times (S k) m = (m', snd (previous_times (S k) m)) /\
  last (snd (previous_times (S k) m)) Raise = current_match m'.
Proof.
  revert m; induction k as [|k IH]; intros m Hne m'.
  - unfold m'. cbn [previous_times]. rewrite (previous_match_ne m Hne).
    split; reflexivity.
  - rewrite previous_times_S, (previous_match_ne m Hne).
    set (m1 := set_current_index m ((current_index m - 1)
                                      mod Z.of_nat (length (matches m)))).
    assert (Hm1 : matches m1 = matches m) by reflexivity.
    assert (Hne1 : matches m1 <> []) by (rewrite Hm1; exact Hne).
    pose proof (previous_times_snd_nonempty k m1) as Hnn.
    destruct (IH m1 Hne1) as [Heq Hlast].
    assert (Hidx : set_current_index m1
              ((current_index m1 - Z.of_nat (S k)) mod Z.of_nat (length (matches m1)))
            = m').
    { unfold m', m1. rewrite set_current_index_twice. f_equal.
      cbn [current_index matches set_current_index].
      rewrite Zminus_mod_idemp_l. f_equal. lia. }
    rewrite Hidx in Heq, Hlast.
    destruct (previous_times (S k) m1) as [m2 rs] eqn:E.
    simpl in Heq, Hlast, Hnn. inversion Heq; subst m2.
    simpl snd. split; [reflexivity|].
    rewrite last_cons_cons by exact Hnn. exact Hlast.
Qed.

(** C7, as stated for every starting index, fails: with one match and the
    current index set to -1, one call of [next_match] moves the index to 0
    and returns the match, where the state before had no current match. *)
Lemma next_wrap_counterexample :
  length (matches model_unset_index) = 1%nat /\
  current_index model_unset_index = -1 /\
  current_match model_unset_index = Ok None /\
  current_index (fst (next_times 1 model_unset_index)) = 0 /\
  last (snd (next_times 1 model_unset_index)) Raise = Ok (Some sample_match).
Proof. vm_compute. repeat split. Qed.

(** C7 (amended): for a match list of length [n > 0] and a current index
    in [0, n-1] (every index [search], [next_match] and [previous_match]
    produce), [n] calls of [next_match] give back the same state, the last
    call returning the match that was current before; the same for
    [previous_match].  From any other index, [n] calls leave the index at
    [index mod n]. *)
Theorem navigation_wraps (m : SearchModel) :
  matches m <> [] ->
  current_index (fst (next_times (length (matches m)) m))
    = current_index m mod Z.of_nat (length (matches m)) /\
  current_index (fst (previous_times (length (matches m)) m))
    = current_index m mod Z.of_nat (length (matches m)) /\
  (0 <= current_index m < Z.of_nat (length (matches m)) ->
   fst (next_times (length (matches m)) m) = m /\
   last (snd (next_times (length (matches m)) m)) Raise = current_match m /\
   fst (previous_times (length (matches m)) m) = m /\
   last (snd (previous_times (length (matches m)) m)) Raise = current_match m).
Proof.
  intros Hne.
  destruct (length (matches m)) as [|k] eqn:Hn.
  { destruct (matches m); [contradiction | discriminate]. }
  destruct (next_times_spec k m Hne) as [Hn1 Hn2].
  destruct (previous_times_spec k m Hne) as [Hp1 Hp2].
  rewrite Hn in Hn1, Hn2, Hp1, Hp2.
  rewrite Hn1 in Hn2 |- *. rewrite Hp1 in Hp2 |- *.
  cbn [fst snd] in *.
  assert (E1 : (current_index m + Z.of_nat (S k)) mod Z.of_nat (S k)
               = current_index m mod Z.of_nat (S k)).
  { rewrite <- Z.add_mod_idemp_r by lia. rewrite Z_mod_same_full, Z.add_0_r.
    reflexivity. }
  assert (E2 : (current_index m - Z.of_nat (S k)) mod Z.of_nat (S k)
               = current_index m mod Z.of_nat (S k)).
  { rewrite <- Zminus_mod_idemp_r. rewrite Z_mod_same_full, Z.sub_0_r.
    reflexivity. }
  rewrite E1 in Hn2 |- *. rewrite E2 in Hp2 |- *.
  split; [reflexivity|]. split; [reflexivity|].
  intros Hr.
  assert (E3 : current_index m mod Z.of_nat (S k) = current_index m)
    by (apply Z.mod_small; lia).
  rewrite E3 in Hn2, Hp2 |- *.
  rewrite set_current_index_same in Hn2, Hp2 |- *.
  repeat split; assumption.
Qed.

(** ** Decoration layers *)

Lemma sorted_layers : sorted_by layer_value all_layers = all_layers.
Proof. reflexivity. Qed.

Lemma layer_eqb_true (a b : DecorationLayer) : layer_eqb a b = true -> a = b.
Proof. destruct a, b; cbv; congruence. Qed.

Lemma run_call_calls (s : DecorationService) (k : DecoCall) :
  setExtraSelections_calls (run_call s k) = setExtraSelections_calls s.
Proof. destruct k; reflexivity. Qed.

Lemma run_call_layer (s : DecorationService) (k : DecoCall) (l : DecorationLayer) :
  layers (run_call s k) l =
  match k with
  | CallAdd l' c color fw =>
      if layer_eqb l' l then layers s l ++ [mkDecoration c color fw] else layers s l
  | CallClearLayer l' => if layer_eqb l' l then [] else layers s l
  | CallClearAll => []
  end.
Proof.
  destruct k as [l' c color fw | l' | ]; simpl.
  - destruct (layer_eqb l' l) eqn:E; [apply layer_eqb_true in E; subst|]; reflexivity.
  - reflexivity.
  - destruct l; reflexivity.
Qed.

Lemma run_calls_spec (ks : list DecoCall) (s : DecorationService) :
  setExtraSelections_calls (run_calls s ks) = setExtraSelections_calls s /\
  forall l, layers (run_calls s ks) l = layer_after l (layers s l) ks.
Proof.
  revert s; induction ks as [|k ks IH]; intros s.
  - split; reflexivity.
  - destruct (IH (run_call s k)) as [H1 H2]. split.
    + simpl. rewrite H1. apply run_call_calls.
    + intros l. simpl. rewrite H2, run_call_layer. reflexivity.
Qed.

(** C4: after any sequence of [add_decoration], [clear_layer] and
    [clear_all] calls, which make no call to the editor, one [apply] makes
    exactly one [setExtraSelections] call, with the decorations of CUSTOM,
    CURRENT_LINE, SEARCH_MATCHES and CURRENT_MATCH in that order, each
    layer holding the decorations added to it since it was last cleared,
    in the order they were added. *)
Theorem apply_after_calls (s : DecorationService) (ks : list DecoCall) :
  let s' := run_calls s ks in
  setExtraSelections_calls s' = setExtraSelections_calls s /\
  (forall l, layers s' l = layer_after l (layers s l) ks) /\
  apply s' =
  {| layers := layers s';
     setExtraSelections_calls :=
       setExtraSelections_calls s ++
       [map to_extra_selection
          (layers s' CUSTOM ++ layers s' CURRENT_LINE ++
           layers s' SEARCH_MATCHES ++ layers s' CURRENT_MATCH)] |}.
Proof.
  intros s'.
  destruct (run_calls_spec ks s) as [H1 H2].
  split; [exact H1|]. split; [exact H2|].
  unfold apply. subst s'. rewrite sorted_layers, H1. simpl.
  rewrite app_nil_r. reflexivity.
Qed.

(** ** The search protocol of the editor *)

Lemma chars_eqb_true (a b : list ascii) : chars_eqb a b = true <-> a = b.
Proof.
  revert b; induction a as [|x a IH]; intros [|y b]; simpl;
    try (split; [discriminate | congruence]).
  - split; reflexivity.
  - rewrite andb_true_iff, Ascii.eqb_eq, IH. split; [intros [-> ->]; reflexivity|].
    intros H; inversion H; split; reflexivity.
Qed.

Lemma needs_research_iff (s : SearchService) pat cs re ww :
  needs_research s pat cs re ww = true <->
  pat <> last_pattern s \/ cs <> last_case_sensitive s \/ re <> last_use_regex s \/
  ww <> last_whole_word s \/ svc_matches s = [].
Proof.
  unfold needs_research.
  rewrite !orb_true_iff, !negb_true_iff, Z.eqb_eq.
  assert (Hp : chars_eqb pat (last_pattern s) = false <-> pat <> last_pattern s).
  { rewrite <- not_true_iff_false, chars_eqb_true. reflexivity. }
  assert (Hb : forall a b : bool, Bool.eqb a b = false <-> a <> b).
  { intros [] []; simpl; split; congruence. }
  rewrite Hp, !Hb.
  assert (Hl : Z.of_nat (length (svc_matches s)) = 0 <-> svc_matches s = []).
  { destruct (svc_matches s); simpl; split; congruence || lia. }
  rewrite Hl. tauto.
Qed.

(** C8: [needs_research] is true exactly when one of pattern, case
    sensitivity, regex mode and whole-word mode differs from the last
    search, or the service holds no match.  [_on_search_requested] asks it
    on every non-empty pattern: when it is false the highlights are
    restored from the stored matches and the service is left as it is;
    when it is true the service is the one a new [search] produces. *)
Theorem needs_research_protocol (h : Host) (c1 c2 : QColor) :
  (forall s pat cs re ww,
     needs_research s pat cs re ww = true <->
     pat <> last_pattern s \/ cs <> last_case_sensitive s \/
     re <> last_use_regex s \/ ww <> last_whole_word s \/ svc_matches s = []) /\
  (forall e pat cs re ww,
     pat <> [] -> needs_research (e_svc e) pat cs re ww = false ->
     on_search_requested h c1 c2 e pat cs re ww
       = (restore_search_highlights c1 c2 e, Ok tt) /\
     e_svc (restore_search_highlights c1 c2 e) = e_svc e) /\
  (forall e pat cs re ww,
     pat <> [] -> needs_research (e_svc e) pat cs re ww = true ->
     e_svc (fst (on_search_requested h c1 c2 e pat cs re ww))
       = fst (svc_search h (e_svc e) pat cs re ww)).
Proof.
  split; [exact needs_research_iff|]. split.
  - intros e pat cs re ww Hp Hn.
    unfold on_search_requested.
    destruct pat as [|a pat]; [contradiction|]. rewrite Hn. simpl negb.
    cbv iota. split; [reflexivity|].
    unfold restore_search_highlights.
    destruct (svc_matches (e_svc e)); [reflexivity|].
    destruct (add_current_decoration c2 _ _ _); reflexivity.
  - intros e pat cs re ww Hp Hn.
    unfold on_search_requested.
    destruct pat as [|a pat]; [contradiction|]. rewrite Hn. simpl negb. cbv iota.
    destruct (svc_search h (e_svc e) (a :: pat) cs re ww) as [s1 [|count]]; [reflexivity|].
    destruct (count >? 0); [|reflexivity].
    destruct (add_current_decoration c2 _ _ _); reflexivity.
Qed.

(** C9: a search request with the empty pattern, whatever the state
    before, records the empty pattern and the flags as the last search,
    leaves no match (the search returns 0), empties SEARCH_MATCHES and
    CURRENT_MATCH (other layers untouched), makes one [setExtraSelections]
    call and shows 0/0 in the popup. *)
Theorem empty_pattern_clears (h : Host) (c1 c2 : QColor) (e : Editor) (cs re ww : bool) :
  let '(e', r) := on_search_requested h c1 c2 e [] cs re ww in
  r = Ok tt /\
  snd (svc_search h (e_svc e) [] cs re ww) = Ok 0 /\
  last_pattern (e_svc e') = [] /\ last_case_sensitive (e_svc e') = cs /\
  last_use_regex (e_svc e') = re /\ last_whole_word (e_svc e') = ww /\
  svc_matches (e_svc e') = [] /\ svc_current_index (e_svc e') = -1 /\
  layers (e_deco e') SEARCH_MATCHES = [] /\ layers (e_deco e') CURRENT_MATCH = [] /\
  layers (e_deco e') CUSTOM = layers (e_deco e) CUSTOM /\
  layers (e_deco e') CURRENT_LINE = layers (e_deco e) CURRENT_LINE /\
  setExtraSelections_calls (e_deco e') =
    setExtraSelections_calls (e_deco e) ++
    [map to_extra_selection (layers (e_deco e) CUSTOM ++ layers (e_deco e) CURRENT_LINE)] /\
  e_popup_count e' = update_match_count (e_popup_count e) 0 0.
Proof.
  simpl. repeat split.
  unfold apply. simpl. rewrite !app_nil_r. reflexivity.
Qed.

(** ** Replace all *)

Section InsertionSort.
Context {A : Type} (key : A -> Z).
Let R (a b : A) : Prop := key a <= key b.

Lemma insert_by_hd (y x : A) (t : list A) :
  HdRel R y t -> R y x -> HdRel R y (insert_by key x t).
Proof.
  intros Hh Hyx. destruct t as [|z t']; simpl.
  - constructor; exact Hyx.
  - destruct (key z <=? key x); constructor; [inversion Hh; assumption | exact Hyx].
Qed.

Lemma insert_by_sorted (x : A) (l : list A) :
  Sorted R l -> Sorted R (insert_by key x l).
Proof.
  induction l as [|y t IH]; intros Hs; simpl.
  - repeat constructor.
  - inversion Hs as [|? ? Ht Hh]; subst.
    destruct (key y <=? key x) eqn:E.
    + constructor; [apply IH, Ht|].
      apply insert_by_hd; [exact Hh|]. unfold R; apply Z.leb_le, E.
    + constructor; [exact Hs|]. constructor. unfold R. apply Z.leb_gt in E. lia.
Qed.

Lemma sorted_by_sorted (l : list A) : Sorted R (sorted_by key l).
Proof. induction l; simpl; [constructor | apply insert_by_sorted; assumption]. Qed.

Lemma insert_by_perm (x : A) (l : list A) : Permutation (insert_by key x l) (x :: l).
Proof.
  induction l as [|y t IH]; simpl; [reflexivity|].
  destruct (key y <=? key x).
  - rewrite IH. apply perm_swap.
  - reflexivity.
Qed.

Lemma sorted_by_perm (l : list A) : Permutation (sorted_by key l) l.
Proof.
  induction l as [|x t IH]; simpl; [reflexivity|].
  rewrite insert_by_perm. constructor. exact IH.
Qed.
End InsertionSort.

(** C1: [replace_all] rewrites every match of the list once, highest
    start offset first, returns the number of matches, and leaves no match
    and the current index at -1; on the document "aXaXa" with the matches
    of "a", replacing by "bb" gives "bbXbbXbb". *)
Theorem replace_all_spec :
  (forall t s r,
     let '(t', s', n) := replace_all t s r in
     t' = fold_left (fun acc m => replaceRange acc (start m) (end_ m) r)
                    (replace_order (svc_matches s)) t /\
     Permutation (replace_order (svc_matches s)) (svc_matches s) /\
     Sorted (fun a b => start a >= start b) (replace_order (svc_matches s)) /\
     n = Z.of_nat (length (svc_matches s)) /\
     svc_matches s' = [] /\ svc_current_index s' = -1) /\
  (let h := qt_host (str "aXaXa") in
   let '(s, k) := svc_search h SearchService_init (str "a") false false false in
   k = Ok 3 /\
   let '(t', s', n) := replace_all (plainText h) s (str "bb") in
   t' = str "bbXbbXbb" /\ n = 3 /\ svc_matches s' = [] /\ svc_current_index s' = -1).
Proof.
  split.
  - intros t s r. simpl. split; [reflexivity|]. split; [apply sorted_by_perm|].
    split; [|repeat split].
    eapply Sorted_ind with (P := fun l => Sorted (fun a b => start a >= start b) l);
      [constructor | | apply sorted_by_sorted].
    intros a l _ IH Hh. constructor; [exact IH|].
    destruct Hh; constructor. lia.
  - vm_compute. repeat split.
Qed.

(** ** The regex loop *)



Lemma regex_loop_bounded (h : Host) (rx : QRegExp) (flags : FindFlags) :
  (forall rx' fl from c, 0 <= from ->
     doc_find_regexp h rx' fl from = Ok (Some c) -> from <= position c) ->
  forall b c last it acc,
    0 <= selectionEnd c -> last <= selectionEnd c ->
    0 <= it <= MAX_ITERATIONS -> Z.of_nat (length acc) = it ->
    Z.of_nat b >= 2 * (MAX_ITERATIONS - it)
                  + (if selectionEnd c =? last then 2 else 1) ->
    exists ex ms, regex_loop h rx flags b c last it acc = Some (ex, ms) /\
                  Z.of_nat (length ms) <= MAX_ITERATIONS.
Proof.
  intros Hmono b. induction b as [|b IH]; intros c last it acc H0 Hl Hit Hlen Hb.
  - destruct (selectionEnd c =? last); lia.
  - simpl.
    destruct (it <? MAX_ITERATIONS) eqn:Hlt; [|exists Finished, acc; split; [reflexivity|lia]].
    apply Z.ltb_lt in Hlt.
    destruct (doc_find_regexp h rx flags (selectionEnd c)) as [|[c'|]] eqn:Hf;
      [exists Raised, acc; split; [reflexivity | lia] | |
       exists Finished, acc; split; [reflexivity | lia]].
    pose proof (Hmono rx flags (selectionEnd c) c' H0 Hf) as Hpos.
    destruct (position c' =? last) eqn:He.
    + apply Z.eqb_eq in He.
      assert (Hsl : selectionEnd c = last) by lia.
      rewrite Hsl, Z.eqb_refl in Hb.
      destruct (position c' + 1 <=? characterCount h - 1) eqn:Hc.
      * assert (Hm : moveNextCharacter h c' = mkCursor (position c' + 1) (position c' + 1))
          by (unfold moveNextCharacter; rewrite Hc; reflexivity).
        rewrite Hm. simpl position.
        replace (position c' + 1 =? position c') with false
          by (symmetry; apply Z.eqb_neq; lia).
        apply IH; unfold selectionEnd; cbn [anchor position]; try lia.
        replace (Z.max (position c' + 1) (position c' + 1) =? last) with false
          by (symmetry; apply Z.eqb_neq; lia). lia.
      * assert (Hm : moveNextCharacter h c' = mkCursor (position c') (position c'))
          by (unfold moveNextCharacter; rewrite Hc; reflexivity).
        rewrite Hm. simpl position. rewrite Z.eqb_refl.
        exists Finished, acc; split; [reflexivity | lia].
    + apply Z.eqb_neq in He.
      destruct (position c' >=? characterCount h);
        [exists Finished, acc; split; [reflexivity | lia]|].
      assert (Hse : position c' <= selectionEnd c') by (unfold selectionEnd; lia).
      apply IH; try lia.
      * rewrite length_app. simpl. lia.
      * destruct (selectionEnd c =? last) eqn:E1;
          destruct (selectionEnd c' =? position c') eqn:E2; lia.
Qed.

Lemma dotstar_find_advances (t : list ascii) :
  forall rx fl from c, 0 <= from ->
    dotstar_find t rx fl from = Ok (Some c) -> from <= position c.
Proof.
  intros rx fl from c _ H. unfold dotstar_find in H.
  destruct (_ && _); [|discriminate].
  inversion H; subst; simpl.
  assert (Hle : forall l i, i <= line_end l i).
  { induction l as [|x l IHl]; intros i; simpl; [lia|].
    destruct (is_newline x); [lia|]. specialize (IHl (i + 1)). lia. }
  apply Hle.
Qed.

(** C3: on every document whose regex [find] never answers before the
    position it starts from (Qt's forward search), a regex search, for
    [.*] or any other pattern, ends within [regex_budget] passes of its
    loop (two per counted iteration, plus one) and returns at most
    [MAX_ITERATIONS] matches: the loop stops at the cap. *)
Theorem regex_search_bounded (h : Host) (m : SearchModel) (pat : list ascii)
        (cs ww : bool) :
  (forall rx fl from c, 0 <= from ->
     doc_find_regexp h rx fl from = Ok (Some c) -> from <= position c) ->
  exists m' n, search h m pat cs true ww = Some (m', n) /\
    n = Z.of_nat (length (matches m')) /\ 0 <= n <= MAX_ITERATIONS.
Proof.
  intros Hmono. unfold search, find_all_matches, find_regex_matches, find_regex_try.
  destruct pat as [|a pat].
  { eexists _, 0. split; [reflexivity|]. simpl. unfold MAX_ITERATIONS. lia. }
  destruct (new_QRegExp h (a :: pat)) as [|rx].
  { eexists _, 0. split; [reflexivity|]. simpl. unfold MAX_ITERATIONS. lia. }
  destruct (regex_loop_bounded h (if cs then rx else setCaseSensitivity rx false)
              (mkFlags cs ww) Hmono regex_budget cursor0 (-1) 0 [])
    as [ex [ms [Hr Hms]]];
    [change (selectionEnd cursor0) with 0; lia
    | change (selectionEnd cursor0) with 0; lia
    | unfold MAX_ITERATIONS; lia | reflexivity | |].
  { unfold regex_budget. change (selectionEnd cursor0 =? -1) with false.
    rewrite Z2Nat.id by (unfold MAX_ITERATIONS; lia). lia. }
  rewrite Hr. eexists _, _. split; [reflexivity|].
  unfold match_count, set_matches. cbn [matches]. lia.
Qed.

(** ** The plain loop *)

Section Literal.
Variables (cs : bool) (p : list ascii).
Hypothesis Hp : p <> [].

Lemma prefix_eq_length (l : list ascii) :
  prefix_eq cs p l = true -> (length p <= length l)%nat.
Proof.
  clear Hp. revert l; induction p as [|a p' IH]; intros l H; simpl; [lia|].
  destruct l as [|b l]; simpl in H; [discriminate|].
  apply andb_true_iff in H as [_ H]. apply IH in H. simpl. lia.
Qed.

Lemma prefix_eq_nil : prefix_eq cs p [] = false.
Proof. destruct p; [contradiction | reflexivity]. Qed.

Lemma index_from_spec (l : list ascii) (i j : Z) :
  index_from cs p l i = Some j ->
  i <= j /\ prefix_eq cs p (skipn (Z.to_nat (j - i)) l) = true.
Proof.
  revert i; induction l as [|x t IH]; intros i H; simpl in H.
  - rewrite prefix_eq_nil in H; discriminate.
  - destruct (prefix_eq cs p (x :: t)) eqn:E.
    + inversion H; subst. replace (j - j) with 0 by lia. simpl. split; [lia | exact E].
    + apply IH in H as [H1 H2]. split; [lia|].
      replace (Z.to_nat (j - i)) with (S (Z.to_nat (j - (i + 1)))) by lia.
      exact H2.
Qed.

Lemma greedy_occ_fuel (f1 f2 : nat) (l : list ascii) (i : Z) :
  (length l < f1)%nat -> (length l < f2)%nat ->
  greedy_occ f1 cs p l i = greedy_occ f2 cs p l i.
Proof.
  assert (Hm : (1 <= length p)%nat) by (destruct p; [contradiction|]; simpl; lia).
  revert f2 l i; induction f1 as [|f1 IH]; intros f2 l i H1 H2; [lia|].
  destruct f2 as [|f2]; [lia|]. simpl.
  destruct (prefix_eq cs p l) eqn:E.
  - apply prefix_eq_length in E. f_equal. apply IH; rewrite length_skipn; lia.
  - destruct l as [|x t]; [reflexivity|]. simpl in H1, H2. apply IH; lia.
Qed.

Definition G (l : list ascii) (i : Z) : list Z := greedy_occ (S (length l)) cs p l i.

Lemma greedy_occ_S (f : nat) (l : list ascii) (i : Z) :
  greedy_occ (S f) cs p l i =
  if prefix_eq cs p l
  then i :: greedy_occ f cs p (skipn (length p) l) (i + Z.of_nat (length p))
  else match l with
       | [] => []
       | _ :: t => greedy_occ f cs p t (i + 1)
       end.
Proof. reflexivity. Qed.

Lemma G_unfold (l : list ascii) (i : Z) :
  G l i =
  match index_from cs p l i with
  | None => []
  | Some j =>
      j :: G (skipn (Z.to_nat (j - i) + length p) l) (j + Z.of_nat (length p))
  end.
Proof.
  assert (Hm : (1 <= length p)%nat) by (destruct p; [contradiction|]; simpl; lia).
  unfold G. revert i; induction l as [|x t IH]; intros i.
  - simpl. rewrite prefix_eq_nil. reflexivity.
  - cbn [index_from]. rewrite greedy_occ_S.
    destruct (prefix_eq cs p (x :: t)) eqn:E.
    + replace (i - i) with 0 by lia. change (Z.to_nat 0 + length p)%nat with (length p).
      f_equal. apply prefix_eq_length in E.
      apply greedy_occ_fuel; rewrite length_skipn; cbn [length] in *; lia.
    + rewrite IH.
      destruct (index_from cs p t (i + 1)) as [j|] eqn:Ej; [|reflexivity].
      apply index_from_spec in Ej as [Hj _].
      replace (Z.to_nat (j - i)) with (S (Z.to_nat (j - (i + 1)))) by lia.
      reflexivity.
Qed.

Lemma greedy_occ_sorted (f : nat) (l : list ascii) (i : Z) :
  Forall (fun j => i <= j) (greedy_occ f cs p l i) /\
  Sorted Z.lt (greedy_occ f cs p l i).
Proof.
  assert (Hm : 1 <= Z.of_nat (length p)) by (destruct p; [contradiction|]; simpl; lia).
  revert l i; induction f as [|f IH]; intros l i; simpl; [split; constructor|].
  destruct (prefix_eq cs p l).
  - destruct (IH (skipn (length p) l) (i + Z.of_nat (length p))) as [H1 H2].
    split.
    + constructor; [lia|]. eapply Forall_impl; [|exact H1]. intros ? Hj; cbv beta in *; lia.
    + constructor; [exact H2|].
      destruct (greedy_occ f cs p (skipn (length p) l) (i + Z.of_nat (length p)))
        as [|y ys]; constructor. inversion H1; lia.
  - destruct l as [|x t]; [split; constructor|].
    destruct (IH t (i + 1)) as [H1 H2]. split; [|exact H2].
    eapply Forall_impl; [|exact H1]. intros ? Hj; cbv beta in *; lia.
Qed.
End Literal.

Lemma sorted_firstn {A : Type} (R : A -> A -> Prop) (k : nat) (l : list A) :
  Sorted R l -> Sorted R (firstn k l).
Proof.
  revert k; induction l as [|x l IH]; intros k Hs; destruct k; simpl; try constructor.
  - inversion Hs; subst. apply IH; assumption.
  - inversion Hs as [|? ? Hs' Hh]; subst.
    destruct k, l; simpl; constructor. inversion Hh; assumption.
Qed.

Section LiteralLoop.
Variables (t p : list ascii) (cs : bool).
Hypothesis Hp : p <> [].
Hypothesis Hnl : existsb is_newline p = false.

Lemma plain_loop_walk (f : nat) (c : QTextCursor) (last : Z) (acc : list SearchMatch) :
  0 <= selectionEnd c <= Z.of_nat (length t) -> last <= selectionEnd c ->
  plain_loop (qt_host t) p (mkFlags cs false) f c last acc =
  acc ++ map (literal_match t (Z.of_nat (length p)))
             (firstn f (G cs p (skipn (Z.to_nat (selectionEnd c)) t) (selectionEnd c))).
Proof.
  revert c last acc; induction f as [|f IH]; intros c last acc Hc Hl.
  - cbn [plain_loop firstn map]. rewrite app_nil_r. reflexivity.
  - cbn [plain_loop]. change (doc_find (qt_host t)) with (qt_find t).
    unfold qt_find. rewrite Hnl.
    cbn [negb qt_find_fuel FindCaseSensitively FindWholeWords andb].
    rewrite (G_unfold cs p Hp).
    destruct (index_from cs p (skipn (Z.to_nat (selectionEnd c)) t) (selectionEnd c))
      as [j|] eqn:Ej.
    2: { cbn [firstn map]. rewrite app_nil_r. reflexivity. }
    apply index_from_spec in Ej as [Hj Hpre]; [|exact Hp].
    apply prefix_eq_length in Hpre. rewrite !length_skipn in Hpre.
    cbn [position].
    assert (Hm : (1 <= length p)%nat) by (destruct p; [contradiction|]; simpl; lia).
    replace (j + Z.of_nat (length p) =? last) with false by (symmetry; apply Z.eqb_neq; lia).
    change (characterCount (qt_host t)) with (Z.of_nat (length t) + 1).
    replace (j + Z.of_nat (length p) >=? Z.of_nat (length t) + 1) with false
      by (symmetry; rewrite Z.geb_leb; apply Z.leb_gt; lia).
    rewrite IH; unfold selectionEnd in *; cbn [anchor position].
    2, 3: lia.
    replace (Z.max j (j + Z.of_nat (length p))) with (j + Z.of_nat (length p)) by lia.
    rewrite skipn_skipn.
    replace (Z.to_nat (j - Z.max (anchor c) (position c)) + length p
             + Z.to_nat (Z.max (anchor c) (position c)))%nat
      with (Z.to_nat (j + Z.of_nat (length p))) by lia.
    cbn [firstn map]. rewrite <- app_assoc. reflexivity.
Qed.

Lemma find_plain_occurrences :
  find_plain_matches (qt_host t) p (mkFlags cs false) =
  map (literal_match t (Z.of_nat (length p)))
      (firstn (Z.to_nat MAX_ITERATIONS) (occurrences cs p t)).
Proof.
  unfold find_plain_matches. rewrite plain_loop_walk.
  - unfold occurrences. rewrite Hnl. reflexivity.
  - change (selectionEnd cursor0) with 0. lia.
  - change (selectionEnd cursor0) with 0. lia.
Qed.
End LiteralLoop.

Lemma search_plain_eq (h : Host) (m : SearchModel) (pat : list ascii) (cs ww : bool) :
  pat <> [] ->
  search h m pat cs false ww =
  Some (set_matches (clear_matches (set_criteria m pat cs false ww))
                    (find_plain_matches h pat (mkFlags cs ww)),
        Z.of_nat (length (find_plain_matches h pat (mkFlags cs ww)))).
Proof. intros Hp. destruct pat; [contradiction | reflexivity]. Qed.

Lemma literal_match_start (t : list ascii) (len : Z) (l : list Z) :
  0 <= len -> map start (map (literal_match t len) l) = l.
Proof.
  intros Hl. rewrite map_map. induction l as [|j l IH]; [reflexivity|].
  cbn [map]. rewrite IH. f_equal. unfold literal_match, from_cursor, selectionStart.
  cbn [start anchor position]. lia.
Qed.

(** C5 (counterexample): a document holding 10001 non-overlapping copies
    of ["a"]; the plain search stops after [MAX_ITERATIONS] of them and
    reports 10000 matches. *)
Lemma plain_cap_counterexample :
  Z.of_nat (length (occurrences true (str "a") big_doc)) = 10001 /\
  option_map snd (search (qt_host big_doc) SearchModel_init (str "a") true false false)
    = Some 10000.
Proof.
  split; [vm_compute; reflexivity|].
  rewrite search_plain_eq by discriminate.
  rewrite find_plain_occurrences by (discriminate || reflexivity).
  cbn [option_map snd]. rewrite length_map. vm_compute. reflexivity.
Qed.

(** C5 (amended): for a non-empty pattern that stays within one line, the
    plain search (whole words off) reports [min k MAX_ITERATIONS] matches,
    [k] being the number of greedy non-overlapping occurrences of the
    pattern; the matches are the first ones of these occurrences, in
    strictly ascending start order. *)
Theorem plain_search_occurrences (t pat : list ascii) (cs : bool) (m : SearchModel) :
  pat <> [] -> existsb is_newline pat = false ->
  exists m',
    search (qt_host t) m pat cs false false
      = Some (m', Z.min (Z.of_nat (length (occurrences cs pat t))) MAX_ITERATIONS) /\
    matches m' = map (literal_match t (Z.of_nat (length pat)))
                     (firstn (Z.to_nat MAX_ITERATIONS) (occurrences cs pat t)) /\
    map start (matches m') = firstn (Z.to_nat MAX_ITERATIONS) (occurrences cs pat t) /\
    Sorted Z.lt (map start (matches m')).
Proof.
  intros Hp Hnl.
  rewrite search_plain_eq by exact Hp.
  rewrite find_plain_occurrences by assumption.
  eexists; split.
  { do 2 f_equal. rewrite length_map, length_firstn. unfold MAX_ITERATIONS. lia. }
  cbn [matches set_matches].
  assert (Hs : map start (map (literal_match t (Z.of_nat (length pat)))
                  (firstn (Z.to_nat MAX_ITERATIONS) (occurrences cs pat t)))
               = firstn (Z.to_nat MAX_ITERATIONS) (occurrences cs pat t))
    by (apply literal_match_start; lia).
  split; [reflexivity|]. split; [exact Hs|]. rewrite Hs.
  apply sorted_firstn. unfold occurrences. rewrite Hnl.
  apply (greedy_occ_sorted cs pat Hp).
Qed.

(** ** Instances of the theorems on concrete inputs *)

Lemma reachable_index_ok_witness :
  index_ok SearchModel_init /\
  exists m' n,
    search (qt_host (str "aXa")) SearchModel_init (str "a") true false false = Some (m', n) /\
    ((n > 0 /\ current_index m' = 0) \/ (n = 0 /\ current_index m' = -1)).
Proof.
  split; [apply (proj1 reachable_index_ok); constructor|].
  destruct (search (qt_host (str "aXa")) SearchModel_init (str "a") true false false)
    as [[m' n]|] eqn:E.
  - exists m', n. split; [reflexivity|].
    exact (proj2 reachable_index_ok _ _ _ _ _ _ _ _ E).
  - vm_compute in E. discriminate.
Defined.

Lemma navigation_wraps_witness :
  fst (next_times 2 (set_matches SearchModel_init [sample_match; sample_match]))
    = set_matches SearchModel_init [sample_match; sample_match] /\
  current_index (fst (previous_times 2 (set_current_index
      (set_matches SearchModel_init [sample_match; sample_match]) 5))) = 1.
Proof.
  split.
  - refine (proj1 (proj2 (proj2 (navigation_wraps
      (set_matches SearchModel_init [sample_match; sample_match]) _)) _)).
    + discriminate.
    + simpl. lia.
  - refine (eq_trans (proj1 (proj2 (navigation_wraps
      (set_current_index (set_matches SearchModel_init [sample_match; sample_match]) 5)
      _))) _).
    + discriminate.
    + reflexivity.
Defined.

Lemma needs_research_protocol_witness :
  let e := {| e_svc := fst (svc_search (qt_host (str "aXa")) SearchService_init
                                       (str "a") false false false);
              e_deco := DecorationService_init; e_text_cursor := cursor0;
              e_popup_count := None |} in
  on_search_requested (qt_host (str "aXa")) (mkColor 1) (mkColor 2) e (str "a") false false false
    = (restore_search_highlights (mkColor 1) (mkColor 2) e, Ok tt).
Proof.
  intros e.
  apply (proj1 (proj1 (proj2 (needs_research_protocol (qt_host (str "aXa"))
           (mkColor 1) (mkColor 2))) e (str "a") false false false
           ltac:(discriminate) ltac:(vm_compute; reflexivity))).
Defined.


Lemma regex_search_bounded_witness :
  exists m' n, search (qt_host (str "aXa")) SearchModel_init (str "a") true true false
                 = Some (m', n) /\
    n = Z.of_nat (length (matches m')) /\ 0 <= n <= MAX_ITERATIONS.
Proof.
  apply regex_search_bounded. apply dotstar_find_advances.
Defined.

Lemma plain_search_occurrences_witness :
  exists m',
    search (qt_host (str "aXaXa")) SearchModel_init (str "a") true false false
      = Some (m', Z.min (Z.of_nat (length (occurrences true (str "a") (str "aXaXa"))))
                        MAX_ITERATIONS) /\
    matches m' = map (literal_match (str "aXaXa") 1)
                     (firstn (Z.to_nat MAX_ITERATIONS) (occurrences true (str "a") (str "aXaXa"))) /\
    map start (matches m') = firstn (Z.to_nat MAX_ITERATIONS) (occurrences true (str "a") (str "aXaXa")) /\
    Sorted Z.lt (map start (matches m')).
Proof.
  apply (plain_search_occurrences (str "aXaXa") (str "a") true SearchModel_init).
  - discriminate.
  - reflexivity.
Defined.

(** * Further properties of the search, decoration and editor code *)

(** ** SearchModel navigation *)

Lemma matches_set_current_index (m : SearchModel) (v : Z) :
  matches (set_current_index m v) = matches m.
Proof. reflexivity. Qed.

Lemma current_index_set_current_index (m : SearchModel) (v : Z) :
  current_index (set_current_index m v) = v.
Proof. reflexivity. Qed.

Lemma current_match_at (m : SearchModel) (i : Z) :
  0 <= i < Z.of_nat (length (matches m)) ->
  current_match (set_current_index m i) = Ok (nth_error (matches m) (Z.to_nat i)).
Proof.
  intros Hi. unfold current_match.
  rewrite matches_set_current_index, current_index_set_current_index.
  replace ((0 <=? i) && (i <? Z.of_nat (length (matches m)))) with true
    by (symmetry; apply andb_true_iff; split; [apply Z.leb_le | apply Z.ltb_lt]; lia).
  destruct (py_index_in_range (matches m) i Hi) as [x [E1 E2]].
  rewrite E2, E1. reflexivity.
Qed.

(** [next_match] followed by [previous_match], or the other way round,
    gives back the state, and returns the match that was current. *)
Theorem next_previous_inverse (m : SearchModel) :
  0 <= current_index m < Z.of_nat (length (matches m)) ->
  previous_match (fst (next_match m)) = (m, current_match m) /\
  next_match (fst (previous_match m)) = (m, current_match m).
Proof.
  intros Hi.
  assert (Hne : matches m <> []) by (intro E; rewrite E in Hi; simpl in Hi; lia).
  assert (Hn : 0 < Z.of_nat (length (matches m))) by lia.
  split.
  - rewrite next_match_ne by exact Hne. cbn [fst].
    rewrite previous_match_ne by exact Hne.
    rewrite matches_set_current_index, current_index_set_current_index,
      set_current_index_twice.
    rewrite Zminus_mod_idemp_l. replace (current_index m + 1 - 1) with (current_index m) by lia.
    rewrite Z.mod_small by lia. rewrite set_current_index_same. reflexivity.
  - rewrite previous_match_ne by exact Hne. cbn [fst].
    rewrite next_match_ne by exact Hne.
    rewrite matches_set_current_index, current_index_set_current_index,
      set_current_index_twice.
    rewrite Zplus_mod_idemp_l. replace (current_index m - 1 + 1) with (current_index m) by lia.
    rewrite Z.mod_small by lia. rewrite set_current_index_same. reflexivity.
Qed.

(** After [set_matches ms], the current match is the first one; the k-th
    call of [next_match] returns [ms[k mod n]], the k-th call of
    [previous_match] returns [ms[-k mod n]]. *)
Theorem set_matches_cycle (m : SearchModel) (ms : list SearchMatch) (k : nat) :
  ms <> [] ->
  current_match (set_matches m ms) = Ok (hd_error ms) /\
  last (snd (next_times (S k) (set_matches m ms))) Raise
    = Ok (nth_error ms (Nat.modulo (S k) (length ms))) /\
  last (snd (previous_times (S k) (set_matches m ms))) Raise
    = Ok (nth_error ms (Z.to_nat ((- Z.of_nat (S k)) mod Z.of_nat (length ms)))).
Proof.
  intros Hne.
  assert (Hm : matches (set_matches m ms) = ms) by reflexivity.
  assert (Hi : current_index (set_matches m ms) = 0) by (destruct ms; [contradiction | reflexivity]).
  assert (Hn : 0 < Z.of_nat (length ms)) by (destruct ms; [contradiction | simpl; lia]).
  assert (Hne' : matches (set_matches m ms) <> []) by (rewrite Hm; exact Hne).
  split; [|split].
  - replace (set_matches m ms) with (set_current_index (set_matches m ms) 0)
      by (rewrite <- Hi; apply set_current_index_same).
    rewrite current_match_at by (rewrite Hm; lia).
    rewrite Hm. destruct ms; reflexivity.
  - destruct (next_times_spec k (set_matches m ms) Hne') as [_ E].
    rewrite E, current_match_at; rewrite Hm, Hi.
    + f_equal. f_equal. rewrite Z.add_0_l, <- Nat2Z.inj_mod, Nat2Z.id. reflexivity.
    + pose proof (Z.mod_pos_bound (0 + Z.of_nat (S k)) _ Hn). lia.
  - destruct (previous_times_spec k (set_matches m ms) Hne') as [_ E].
    rewrite E, current_match_at; rewrite Hm, Hi.
    + rewrite Z.sub_0_l. reflexivity.
    + pose proof (Z.mod_pos_bound (0 - Z.of_nat (S k)) _ Hn). lia.
Qed.

(** ** Literal matches *)

Lemma greedy_occ_in (cs : bool) (p : list ascii) (f : nat) (l : list ascii) (i j : Z) :
  In j (greedy_occ f cs p l i) ->
  i <= j /\ prefix_eq cs p (skipn (Z.to_nat (j - i)) l) = true.
Proof.
  revert l i; induction f as [|f IH]; intros l i Hj; [contradiction|].
  rewrite greedy_occ_S in Hj. destruct (prefix_eq cs p l) eqn:E.
  - destruct Hj as [-> | Hj].
    + replace (j - j) with 0 by lia. split; [lia | exact E].
    + apply IH in Hj as [H1 H2]. rewrite skipn_skipn in H2. split; [lia|].
      replace (Z.to_nat (j - i)) with (Z.to_nat (j - (i + Z.of_nat (length p))) + length p)%nat
        by lia.
      exact H2.
  - destruct l as [|x t]; [contradiction|].
    apply IH in Hj as [H1 H2]. split; [lia|].
    replace (Z.to_nat (j - i)) with (S (Z.to_nat (j - (i + 1)))) by lia. exact H2.
Qed.

Lemma prefix_eq_firstn (cs : bool) (p l : list ascii) :
  prefix_eq cs p l = true -> prefix_eq cs p (firstn (length p) l) = true.
Proof.
  revert l; induction p as [|a p IH]; intros l H; [reflexivity|].
  destruct l as [|b l]; [discriminate|]. cbn [prefix_eq] in H |- *.
  apply andb_true_iff in H as [H1 H2]. cbn [length firstn prefix_eq].
  rewrite H1, IH by exact H2. reflexivity.
Qed.

Lemma prefix_eq_exact (p l : list ascii) :
  prefix_eq true p l = true -> length l = length p -> l = p.
Proof.
  revert l; induction p as [|a p IH]; intros l H Hl.
  - destruct l; [reflexivity | discriminate].
  - destruct l as [|b l]; [discriminate|]. cbn [prefix_eq char_eq] in H.
    apply andb_true_iff in H as [H1 H2]. apply Ascii.eqb_eq in H1. subst b.
    cbn [length] in Hl. f_equal. apply IH; [exact H2 | lia].
Qed.

Lemma in_firstn {A : Type} (k : nat) (x : A) (l : list A) : In x (firstn k l) -> In x l.
Proof. intros H. rewrite <- (firstn_skipn k l). apply in_or_app. left. exact H. Qed.

Lemma qt_find_occurrence (t p : list ascii) (fl : FindFlags) (from : Z) (c : QTextCursor) :
  p <> [] -> 0 <= from -> qt_find t p fl from = Some c ->
  from <= anchor c /\ position c = anchor c + Z.of_nat (length p) /\
  prefix_eq (FindCaseSensitively fl) p (skipn (Z.to_nat (anchor c)) t) = true.
Proof.
  intros Hp. unfold qt_find. destruct (existsb is_newline p); [discriminate|].
  generalize (S (length t)) as f. intros f. revert from.
  induction f as [|f IH]; intros from H0 H; [discriminate|]. cbn [qt_find_fuel] in H.
  destruct (index_from _ p (skipn (Z.to_nat from) t) from) as [idx|] eqn:E; [|discriminate].
  destruct (index_from_spec _ p Hp _ _ _ E) as [Hle Hpre].
  destruct (_ && _).
  - apply IH in H; [|lia]. destruct H as (H1 & H2 & H3). split; [lia|]. split; assumption.
  - injection H as <-. cbn [anchor position]. split; [lia|]. split; [reflexivity|].
    rewrite skipn_skipn in Hpre.
    replace (Z.to_nat idx) with (Z.to_nat (idx - from) + Z.to_nat from)%nat by lia.
    exact Hpre.
Qed.

(** Every match the literal loop records on [qt_host] is a hit of Qt's
    [find]: an occurrence of the pattern at a non-negative offset. *)
Lemma plain_loop_qt (t pat : list ascii) (fl : FindFlags) (f : nat) (c : QTextCursor)
      (last : Z) (acc : list SearchMatch) (x : SearchMatch) :
  pat <> [] -> 0 <= selectionEnd c ->
  In x (plain_loop (qt_host t) pat fl f c last acc) ->
  In x acc \/
  exists j, 0 <= j /\ prefix_eq (FindCaseSensitively fl) pat (skipn (Z.to_nat j) t) = true /\
            x = literal_match t (Z.of_nat (length pat)) j.
Proof.
  intros Hp. revert c last acc; induction f as [|f IH]; intros c last acc H0 Hx;
    cbn [plain_loop] in Hx; [left; exact Hx|].
  change (doc_find (qt_host t)) with (qt_find t) in Hx.
  destruct (qt_find t pat fl (selectionEnd c)) as [c'|] eqn:E; [|left; exact Hx].
  destruct (qt_find_occurrence t pat fl _ c' Hp H0 E) as (Ha & Hpos & Hpre).
  destruct (position c' =? last); [left; exact Hx|].
  destruct (position c' >=? characterCount (qt_host t)); [left; exact Hx|].
  apply IH in Hx; [|unfold selectionEnd; lia].
  destruct Hx as [Hx|Hx]; [|right; exact Hx].
  apply in_app_or in Hx as [Hx|[<-|[]]]; [left; exact Hx|].
  right. exists (anchor c'). split; [lia|]. split; [exact Hpre|].
  destruct c' as [a q]. cbn [anchor position] in Hpos |- *. subst q. reflexivity.
Qed.

Lemma literal_match_props (t pat : list ascii) (cs : bool) (j : Z) :
  0 <= j -> prefix_eq cs pat (skipn (Z.to_nat j) t) = true ->
  end_ (literal_match t (Z.of_nat (length pat)) j)
    = start (literal_match t (Z.of_nat (length pat)) j) + Z.of_nat (length pat) /\
  length (text (literal_match t (Z.of_nat (length pat)) j)) = length pat /\
  prefix_eq cs pat (text (literal_match t (Z.of_nat (length pat)) j)) = true /\
  (cs = true -> text (literal_match t (Z.of_nat (length pat)) j) = pat).
Proof.
  intros Hj0 Hpre.
  assert (Hlen := prefix_eq_length cs pat _ Hpre). rewrite length_skipn in Hlen.
  assert (Htext : text (literal_match t (Z.of_nat (length pat)) j)
                  = firstn (length pat) (skipn (Z.to_nat j) t)).
  { unfold literal_match, from_cursor, selectedText, selectionStart, selectionEnd.
    cbn [text anchor position]. f_equal; [|f_equal]; lia. }
  assert (Hl : length (firstn (length pat) (skipn (Z.to_nat j) t)) = length pat)
    by (rewrite length_firstn, length_skipn; lia).
  assert (Hpre' := prefix_eq_firstn cs pat _ Hpre).
  rewrite Htext. split; [|split; [exact Hl | split; [exact Hpre'|]]].
  - unfold literal_match, from_cursor, selectionStart, selectionEnd.
    cbn [start end_ anchor position]. lia.
  - intros ->. apply prefix_eq_exact; assumption.
Qed.

(** Every match of a plain (non-regex) search, with or without whole-word
    matching, is an occurrence of the pattern: it spans [len(pattern)]
    characters and its text equals the pattern up to case, and equals it
    exactly when the search is case-sensitive. *)
Theorem plain_match_texts (t pat : list ascii) (cs ww : bool) (m m' : SearchModel) (n : Z) :
  search (qt_host t) m pat cs false ww = Some (m', n) ->
  Forall (fun x => end_ x = start x + Z.of_nat (length pat) /\
                   length (text x) = length pat /\
                   prefix_eq cs pat (text x) = true /\
                   (cs = true -> text x = pat)) (matches m').
Proof.
  intros Hs. destruct pat as [|a pat0].
  { unfold search in Hs. injection Hs as <- _. apply Forall_nil. }
  remember (a :: pat0) as pat eqn:Ep.
  assert (Hp : pat <> []) by (subst pat; discriminate). clear Ep.
  rewrite search_plain_eq in Hs by exact Hp.
  injection Hs as <- _. cbn [matches set_matches].
  rewrite Forall_forall. intros x Hx. unfold find_plain_matches in Hx.
  revert Hx. generalize (Z.to_nat MAX_ITERATIONS) as f. intros f Hx.
  assert (H0 : 0 <= selectionEnd cursor0) by (change (selectionEnd cursor0) with 0; lia).
  destruct (plain_loop_qt t pat (mkFlags cs ww) f cursor0 (-1) [] x Hp H0 Hx)
    as [[]|(j & Hj & Hpre & ->)].
  exact (literal_match_props t pat cs j Hj Hpre).
Qed.

(** ** The two SearchService versions *)

Lemma index_from_ge (cs : bool) (p l : list ascii) (i j : Z) :
  index_from cs p l i = Some j -> i <= j.
Proof.
  revert i; induction l as [|x t IH]; intros i H; simpl in H;
    destruct (prefix_eq cs p _); try (injection H as <-; lia); try discriminate.
  apply IH in H. lia.
Qed.

Lemma qt_find_after (t p : list ascii) (fl : FindFlags) (from : Z) (c : QTextCursor) :
  qt_find t p fl from = Some c -> from <= anchor c /\ anchor c <= position c.
Proof.
  unfold qt_find. destruct (existsb is_newline p); [discriminate|].
  generalize (S (length t)) as f. intros f. revert from.
  induction f as [|f IH]; intros from H; [discriminate|]. cbn [qt_find_fuel] in H.
  destruct (index_from _ p (skipn (Z.to_nat from) t) from) as [idx|] eqn:E; [|discriminate].
  apply index_from_ge in E.
  destruct (_ && _).
  - apply IH in H. lia.
  - injection H as <-. cbn [anchor position]. lia.
Qed.

Section LegacyLoop.
Variables (h : Host) (flags : FindFlags) (pat : list ascii).
Hypothesis Hpos : forall from c, 0 <= from -> doc_find h pat flags from = Some c ->
                                 0 <= position c.

Lemma svc_plain_loop_eq (f : nat) (c : QTextCursor) (last : Z) (acc : list SearchMatch) :
  0 <= selectionEnd c ->
  svc_plain_loop h flags pat f (doc_find h pat flags (selectionEnd c)) last acc
  = plain_loop h pat flags f c last acc.
Proof.
  revert c last acc; induction f as [|f IH]; intros c last acc Hc.
  - destruct (doc_find h pat flags (selectionEnd c)); reflexivity.
  - cbn [plain_loop]. destruct (doc_find h pat flags (selectionEnd c)) as [c'|] eqn:E;
      [|reflexivity].
    cbn [svc_plain_loop]. apply Hpos in E; [|exact Hc].
    destruct (position c' =? last); [reflexivity|].
    replace (position c' <? 0) with false by (symmetry; apply Z.ltb_ge; lia).
    cbn [orb]. destruct (position c' >=? characterCount h); [reflexivity|].
    apply IH. unfold selectionEnd. lia.
Qed.
End LegacyLoop.

(** The SearchService the editor uses and the SearchModel based one find
    the same plain matches, with the same count and current index, on
    every document whose [find] answers positions inside the document. *)
Theorem legacy_plain_search_agrees (h : Host) (s : SearchService) (m : SearchModel)
        (pat : list ascii) (cs ww : bool) :
  (forall fl from c, 0 <= from -> doc_find h pat fl from = Some c -> 0 <= position c) ->
  exists m' n,
    search h m pat cs false ww = Some (m', n) /\
    svc_search h s pat cs false ww =
      ({| svc_matches := matches m'; svc_current_index := current_index m';
          last_pattern := pat; last_case_sensitive := cs; last_use_regex := false;
          last_whole_word := ww |}, Ok n).
Proof.
  intros Hpos. destruct pat as [|a pat'].
  - do 2 eexists. split; reflexivity.
  - rewrite search_plain_eq by discriminate. do 2 eexists. split; [reflexivity|].
    unfold svc_search. cbv beta zeta iota.
    change (Z.to_nat max_iterations) with (Z.to_nat MAX_ITERATIONS).
    rewrite svc_plain_loop_eq by (apply Hpos || (change (selectionEnd cursor0) with 0; lia)).
    reflexivity.
Qed.

(** ** The SearchService used by the editor widget *)

Lemma svc_search_shape (h : Host) (s : SearchService) (pat : list ascii) (cs re ww : bool) :
  let '(s', r) := svc_search h s pat cs re ww in
  last_pattern s' = pat /\ last_case_sensitive s' = cs /\
  last_use_regex s' = re /\ last_whole_word s' = ww /\
  (forall n, r = Ok n -> n = Z.of_nat (length (svc_matches s')) /\
     svc_current_index s' = match svc_matches s' with [] => -1 | _ => 0 end) /\
  (r = Raise -> re = true /\ svc_current_index s' = -1).
Proof.
  unfold svc_search. cbv beta zeta.
  generalize (Z.to_nat max_iterations) as fuel; intros fuel.
  destruct pat as [|a pat'].
  { cbn. repeat split; try reflexivity; intros; try discriminate.
    injection H as <-. reflexivity. }
  destruct re.
  - destruct (new_QRegExp h (a :: pat')) as [|rx].
    { cbn. repeat split; intros; discriminate. }
    destruct (doc_find_regexp h _ _ _) as [|c].
    { cbn. repeat split; intros; discriminate. }
    destruct (svc_regex_loop h _ _ _ c (-1) []) as [ms [|u]].
    + cbn. repeat split; intros; discriminate.
    + cbn. repeat split; intros; try discriminate.
      injection H as <-. reflexivity.
  - cbn [with_matches svc_matches svc_current_index last_pattern last_case_sensitive
         last_use_regex last_whole_word].
    repeat split; intros; try discriminate.
    injection H as <-. reflexivity.
Qed.

(** Right after a search that found matches, [needs_research] with the
    same criteria is false (the editor restores the highlights); after a
    search that found none, or after [clear], it is true whatever the
    criteria. *)
Theorem needs_research_after_search (h : Host) (s s' : SearchService)
        (pat : list ascii) (cs re ww : bool) (n : Z) :
  svc_search h s pat cs re ww = (s', Ok n) ->
  (needs_research s' pat cs re ww = false <-> 0 < n) /\
  (forall pat' cs' re' ww', needs_research (service_clear s') pat' cs' re' ww' = true).
Proof.
  intros E. pose proof (svc_search_shape h s pat cs re ww) as Hs. rewrite E in Hs.
  destruct Hs as (H1 & H2 & H3 & H4 & H5 & _). destruct (H5 n eq_refl) as [Hn _].
  split.
  - unfold needs_research. rewrite H1, H2, H3, H4.
    assert (Hc : chars_eqb pat pat = true) by (apply chars_eqb_true; reflexivity).
    rewrite Hc, !eqb_reflx. cbn [negb orb]. rewrite <- Hn.
    split; intros H.
    + apply Z.eqb_neq in H. lia.
    + apply Z.eqb_neq. lia.
  - intros. unfold needs_research, service_clear, with_matches. cbn [svc_matches length].
    rewrite !orb_true_r. reflexivity.
Qed.


(** [next_match] and [previous_match] of the editor's SearchService move
    the index and return the match exactly as those of SearchModel do, on
    every state (including an index set out of range). *)
Theorem service_navigation_agrees (s : SearchService) :
  service_model (fst (service_next_match s)) = fst (next_match (service_model s)) /\
  snd (service_next_match s) = snd (next_match (service_model s)) /\
  service_model (fst (service_previous_match s)) = fst (previous_match (service_model s)) /\
  snd (service_previous_match s) = snd (previous_match (service_model s)).
Proof.
  unfold service_next_match, service_previous_match, next_match, previous_match.
  change (matches (service_model s)) with (svc_matches s).
  change (current_index (service_model s)) with (svc_current_index s).
  destruct (svc_matches s) as [|x l] eqn:E; [repeat split|].
  assert (Hn : 0 < Z.of_nat (length (x :: l))) by (simpl; lia).
  assert (Hagree : forall i, 0 <= i < Z.of_nat (length (x :: l)) ->
    service_model (with_matches s (x :: l) i) = set_current_index (service_model s) i /\
    match py_index (x :: l) i with Ok y => Ok (Some y) | Raise => Raise end
      = current_match (set_current_index (service_model s) i)).
  { intros i Hi. split.
    - unfold service_model, with_matches, set_current_index. cbn. rewrite E. reflexivity.
    - rewrite current_match_at by (change (matches (service_model s)) with (svc_matches s);
                                   rewrite E; exact Hi).
      change (matches (service_model s)) with (svc_matches s). rewrite E.
      destruct (py_index_in_range (x :: l) i Hi) as [y [E1 E2]].
      rewrite E1, E2. reflexivity. }
  unfold py_mod. cbn [fst snd].
  destruct (Hagree ((svc_current_index s + 1) mod Z.of_nat (length (x :: l))))
    as [A1 A2]; [apply Z.mod_pos_bound; exact Hn|].
  destruct (Hagree ((svc_current_index s - 1) mod Z.of_nat (length (x :: l))))
    as [B1 B2]; [apply Z.mod_pos_bound; exact Hn|].
  repeat split; assumption.
Qed.

(** ** Decoration layers *)

Lemma layer_eqb_refl (l : DecorationLayer) : layer_eqb l l = true.
Proof. destruct l; reflexivity. Qed.

Lemma layer_eqb_neq (a b : DecorationLayer) : a <> b -> layer_eqb a b = false.
Proof. destruct a, b; cbv; congruence. Qed.

Lemma apply_layers (d : DecorationService) :
  layers (apply d) = layers d /\
  setExtraSelections_calls (apply d) =
    setExtraSelections_calls d ++ [map to_extra_selection (flat_map (layers d) all_layers)].
Proof. unfold apply. rewrite sorted_layers. split; reflexivity. Qed.

Lemma add_match_decorations_spec (c : QColor) (ms : list SearchMatch) (d : DecorationService) :
  setExtraSelections_calls (add_match_decorations c d ms) = setExtraSelections_calls d /\
  forall l, layers (add_match_decorations c d ms) l =
    if layer_eqb SEARCH_MATCHES l
    then layers d l ++ map (fun m => mkDecoration (cursor m) c false) ms
    else layers d l.
Proof.
  unfold add_match_decorations. revert d; induction ms as [|m ms IH]; intros d.
  - split; [reflexivity|]. intros l. destruct (layer_eqb SEARCH_MATCHES l);
      [rewrite app_nil_r|]; reflexivity.
  - cbn [fold_left]. destruct (IH (add_decoration d SEARCH_MATCHES (cursor m) c false))
      as [H1 H2].
    split; [exact H1|]. intros l. rewrite H2. unfold add_decoration, set_layer.
    cbn [layers]. destruct (layer_eqb SEARCH_MATCHES l) eqn:El; [|reflexivity].
    apply layer_eqb_true in El. subst l. rewrite <- app_assoc. reflexivity.
Qed.



(** ** Decorations from the editor widget *)

(** [clear_decorations]: [None] and the empty string clear every layer, a
    known type clears its layer only, any other string clears nothing;
    each call ends in one [setExtraSelections] of what is left. *)
Lemma clear_decorations_layers (d : DecorationService) (ty : option string) :
  setExtraSelections_calls (clear_decorations d ty) =
    setExtraSelections_calls d ++
    [map to_extra_selection (flat_map (layers (clear_decorations d ty)) all_layers)] /\
  (forall l, layers (clear_decorations d None) l = []) /\
  (forall l, layers (clear_decorations d (Some EmptyString)) l = []) /\
  (forall t l', type_to_layer t = Some l' -> forall l,
     layers (clear_decorations d (Some t)) l = if layer_eqb l' l then [] else layers d l) /\
  (forall t, t <> EmptyString -> type_to_layer t = None ->
     layers (clear_decorations d (Some t)) = layers d).
Proof.
  split.
  { unfold clear_decorations. destruct (apply_layers
      (match ty with
       | Some t => if negb (String.eqb t EmptyString)
                   then match type_to_layer t with Some l => clear_layer d l | None => d end
                   else clear_all d
       | None => clear_all d end)) as [H1 H2].
    rewrite H2, H1.
    destruct ty as [t|]; [destruct (negb _); [destruct (type_to_layer t)|]|]; reflexivity. }
  split; [intros l; destruct l; reflexivity|].
  split; [intros l; destruct l; reflexivity|].
  split.
  - intros t l' Ht l. unfold clear_decorations.
    destruct (String.eqb t EmptyString) eqn:Et.
    { apply String.eqb_eq in Et. subst t. discriminate. }
    cbn [negb]. rewrite Ht. reflexivity.
  - intros t Hne Ht. unfold clear_decorations.
    replace (String.eqb t EmptyString) with false
      by (symmetry; apply String.eqb_neq; exact Hne).
    cbn [negb]. rewrite Ht. reflexivity.
Qed.

(** [CodeEditor.search]: the SEARCH_MATCHES layer ends up holding one
    decoration per match, in match order; the other layers, CURRENT_MATCH
    included, are left as they were; one [setExtraSelections] call. *)
Theorem editor_search_decorations (h : Host) (c : QColor) (e e' : Editor)
        (pat : list ascii) (regex : bool) (count : Z) :
  editor_search h c e pat regex = (e', Ok count) ->
  e_svc e' = fst (svc_search h (e_svc e) pat false regex false) /\
  count = Z.of_nat (length (svc_matches (e_svc e'))) /\
  layers (e_deco e') SEARCH_MATCHES
    = map (fun m => mkDecoration (cursor m) c false) (svc_matches (e_svc e')) /\
  (forall l, l <> SEARCH_MATCHES -> layers (e_deco e') l = layers (e_deco e) l) /\
  setExtraSelections_calls (e_deco e') = setExtraSelections_calls (e_deco e) ++
    [map to_extra_selection (flat_map (layers (e_deco e')) all_layers)].
Proof.
  intros H. unfold editor_search in H.
  pose proof (svc_search_shape h (e_svc e) pat false regex false) as Hs.
  destruct (svc_search h (e_svc e) pat false regex false) as [s1 r] eqn:E.
  destruct r as [|n]; [discriminate|]. injection H as <- <-.
  destruct Hs as (_ & _ & _ & _ & H5 & _). destruct (H5 n eq_refl) as [Hn _].
  cbn [e_svc e_deco fst].
  set (d1 := clear_layer (e_deco e) SEARCH_MATCHES).
  set (d2 := if n >? 0 then add_match_decorations c d1 (svc_matches s1) else d1).
  destruct (apply_layers d2) as [A1 A2]. rewrite A1, A2.
  assert (Hd2 : forall l, layers d2 l = if layer_eqb SEARCH_MATCHES l
      then map (fun m => mkDecoration (cursor m) c false) (svc_matches s1)
      else layers (e_deco e) l).
  { intros l. unfold d2. destruct (n >? 0) eqn:Eg.
    - rewrite (proj2 (add_match_decorations_spec c (svc_matches s1) d1)).
      unfold d1, clear_layer, set_layer. cbn [layers].
      destruct (layer_eqb SEARCH_MATCHES l); reflexivity.
    - unfold d1, clear_layer, set_layer. cbn [layers].
      destruct (layer_eqb SEARCH_MATCHES l); [|reflexivity].
      destruct (svc_matches s1); [reflexivity|]. cbn [length] in Hn.
      rewrite Z.gtb_ltb, Z.ltb_ge in Eg. lia. }
  assert (Hc : setExtraSelections_calls d2 = setExtraSelections_calls (e_deco e)).
  { unfold d2. destruct (n >? 0); [rewrite (proj1 (add_match_decorations_spec _ _ _))|];
      reflexivity. }
  split; [reflexivity|]. split; [exact Hn|].
  split; [rewrite Hd2; reflexivity|].
  split; [intros l Hl; rewrite Hd2, layer_eqb_neq by congruence; reflexivity|].
  rewrite Hc. reflexivity.
Qed.

(** [clear_search]: the service's matches are dropped (its last criteria
    are kept) and the SEARCH_MATCHES layer is emptied; CURRENT_MATCH and
    the other layers keep their decorations; one [setExtraSelections]
    call. *)
Lemma clear_search_spec (e : Editor) :
  svc_matches (e_svc (clear_search e)) = [] /\
  svc_current_index (e_svc (clear_search e)) = -1 /\
  last_pattern (e_svc (clear_search e)) = last_pattern (e_svc e) /\
  last_case_sensitive (e_svc (clear_search e)) = last_case_sensitive (e_svc e) /\
  last_use_regex (e_svc (clear_search e)) = last_use_regex (e_svc e) /\
  last_whole_word (e_svc (clear_search e)) = last_whole_word (e_svc e) /\
  layers (e_deco (clear_search e)) SEARCH_MATCHES = [] /\
  (forall l, l <> SEARCH_MATCHES ->
     layers (e_deco (clear_search e)) l = layers (e_deco e) l) /\
  setExtraSelections_calls (e_deco (clear_search e)) =
    setExtraSelections_calls (e_deco e) ++
    [map to_extra_selection (flat_map (layers (e_deco (clear_search e))) all_layers)].
Proof.
  unfold clear_search. cbn [e_svc e_deco].
  destruct (clear_decorations_layers (e_deco e) (Some "search"%string)) as (H1 & _ & _ & H4 & _).
  specialize (H4 "search"%string SEARCH_MATCHES eq_refl).
  do 6 (split; [reflexivity|]).
  split; [rewrite H4; reflexivity|].
  split; [intros l Hl; rewrite H4, layer_eqb_neq by congruence; reflexivity|].
  exact H1.
Qed.

(** ** Match navigation in the editor widget *)








(** ** Line data *)

Section LineDataProofs.
Context {A : Type}.

Lemma length_list_set (l : list (QTextBlock A)) (n : nat) (b : QTextBlock A) :
  length (list_set l n b) = length l.
Proof.
  revert n; induction l as [|x t IH]; intros [|n]; cbn [list_set length]; try reflexivity.
  rewrite IH. reflexivity.
Qed.

Lemma nth_error_list_set (l : list (QTextBlock A)) (n k : nat) (b : QTextBlock A) :
  nth_error (list_set l n b) k =
    if Nat.eqb k n then (if Nat.ltb n (length l) then Some b else None)
    else nth_error l k.
Proof.
  revert n k; induction l as [|x t IH]; intros n k.
  - cbn [list_set length]. destruct (Nat.eqb k n); destruct n, k; reflexivity.
  - destruct n as [|n], k as [|k]; cbn [list_set nth_error length Nat.eqb Nat.ltb Nat.leb];
      try reflexivity.
    rewrite IH. destruct (Nat.eqb k n); reflexivity.
Qed.

Lemma findBlockByNumber_some (bs : list (QTextBlock A)) (n : Z) :
  0 <= n < line_count bs -> exists b, findBlockByNumber bs n = Some b.
Proof.
  unfold findBlockByNumber, line_count. intros Hn.
  replace ((0 <=? n) && (n <? Z.of_nat (length bs))) with true
    by (symmetry; apply andb_true_iff; split; [apply Z.leb_le | apply Z.ltb_lt]; lia).
  destruct (nth_error bs (Z.to_nat n)) as [b|] eqn:E; [exists b; reflexivity|].
  apply nth_error_None in E. lia.
Qed.

Lemma findBlockByNumber_none (bs : list (QTextBlock A)) (n : Z) :
  ~ (0 <= n < line_count bs) -> findBlockByNumber bs n = None.
Proof.
  unfold findBlockByNumber, line_count. intros Hn.
  destruct ((0 <=? n) && (n <? Z.of_nat (length bs))) eqn:E; [|reflexivity].
  apply andb_true_iff in E as [E1 E2]. apply Z.leb_le in E1. apply Z.ltb_lt in E2. lia.
Qed.

Lemma findBlockByNumber_list_set (bs : list (QTextBlock A)) (n k : Z) (b : QTextBlock A) :
  0 <= n ->
  findBlockByNumber (list_set bs (Z.to_nat n) b) k =
    if Z.eqb k n then (if n <? line_count bs then Some b else None)
    else findBlockByNumber bs k.
Proof.
  intros Hn. unfold findBlockByNumber, line_count. rewrite length_list_set.
  destruct (Z.eqb k n) eqn:Ek.
  - apply Z.eqb_eq in Ek. subst k.
    replace (0 <=? n) with true by (symmetry; apply Z.leb_le; lia). cbn [andb].
    destruct (n <? Z.of_nat (length bs)) eqn:E; [|reflexivity].
    rewrite nth_error_list_set, Nat.eqb_refl.
    apply Z.ltb_lt in E. replace (Nat.ltb (Z.to_nat n) (length bs)) with true
      by (symmetry; apply Nat.ltb_lt; lia). reflexivity.
  - apply Z.eqb_neq in Ek.
    destruct ((0 <=? k) && (k <? Z.of_nat (length bs))) eqn:E; [|reflexivity].
    apply andb_true_iff in E as [E1 _]. apply Z.leb_le in E1.
    rewrite nth_error_list_set.
    replace (Nat.eqb (Z.to_nat k) (Z.to_nat n)) with false
      by (symmetry; apply Nat.eqb_neq; lia). reflexivity.
Qed.

(** [set_line_data] succeeds exactly on a valid line number; it then
    makes [get_line_data] of that line return the new data and keeps the
    other lines' data, every line's text and the line count; on an invalid
    line it changes nothing and [get_line_data] returns [None] there. *)
Theorem set_get_line_data (bs : list (QTextBlock A)) (n : Z) (data : LineData A) :
  let '(bs', ok) := set_line_data bs n data in
  (ok = true <-> 0 <= n < line_count bs) /\
  line_count bs' = line_count bs /\
  (forall k, get_line_text bs' k = get_line_text bs k) /\
  (forall k, k <> n -> get_line_data bs' k = get_line_data bs k) /\
  (ok = true -> get_line_data bs' n = Some data) /\
  (ok = false -> bs' = bs /\ get_line_data bs n = None).
Proof.
  destruct (Z_lt_le_dec n 0) as [H0|H0];
    [|destruct (Z_lt_le_dec n (line_count bs)) as [H1|H1]].
  1,3: assert (Hnone := findBlockByNumber_none bs n ltac:(lia));
    unfold set_line_data; rewrite Hnone;
    (split; [split; [discriminate | lia]|]);
    do 3 (split; [reflexivity + (intros; reflexivity)|]);
    (split; [discriminate|]); intros _; (split; [reflexivity|]);
    unfold get_line_data; rewrite Hnone; reflexivity.
  destruct (findBlockByNumber_some bs n (conj H0 H1)) as [b Hb].
  unfold set_line_data. rewrite Hb.
  assert (Hf := findBlockByNumber_list_set bs n).
  assert (Hlt : (n <? line_count bs) = true) by (apply Z.ltb_lt; lia).
  split; [split; [intros _; lia | reflexivity]|].
  split; [unfold line_count; rewrite length_list_set; reflexivity|].
  split.
  { intros k. unfold get_line_text. rewrite Hf by lia.
    destruct (Z.eqb k n) eqn:Ek; [|reflexivity].
    apply Z.eqb_eq in Ek. subst k. rewrite Hlt, Hb. reflexivity. }
  split.
  { intros k Hk. unfold get_line_data. rewrite Hf by lia.
    replace (Z.eqb k n) with false by (symmetry; apply Z.eqb_neq; exact Hk). reflexivity. }
  split; [|discriminate].
  intros _. unfold get_line_data. rewrite Hf, Z.eqb_refl, Hlt by lia. reflexivity.
Qed.


End LineDataProofs.

(** ** Search events and the user's decorations *)




















(** ** Instances of the further properties on concrete inputs *)

Lemma next_previous_inverse_witness :
  0 <= current_index (set_matches SearchModel_init [sample_match; sample_match])
    < Z.of_nat (length (matches (set_matches SearchModel_init [sample_match; sample_match]))) /\
  previous_match (fst (next_match (set_matches SearchModel_init [sample_match; sample_match])))
    = (set_matches SearchModel_init [sample_match; sample_match],
       current_match (set_matches SearchModel_init [sample_match; sample_match])) /\
  next_match (fst (previous_match (set_matches SearchModel_init [sample_match; sample_match])))
    = (set_matches SearchModel_init [sample_match; sample_match],
       current_match (set_matches SearchModel_init [sample_match; sample_match])).
Proof.
  split; [simpl; lia|].
  apply next_previous_inverse. simpl. lia.
Defined.

Lemma set_matches_cycle_witness :
  [sample_match; sample_match] <> [] /\
  current_match (set_matches SearchModel_init [sample_match; sample_match])
    = Ok (hd_error [sample_match; sample_match]) /\
  last (snd (next_times 3 (set_matches SearchModel_init [sample_match; sample_match]))) Raise
    = Ok (nth_error [sample_match; sample_match] (Nat.modulo 3 2)) /\
  last (snd (previous_times 3 (set_matches SearchModel_init [sample_match; sample_match]))) Raise
    = Ok (nth_error [sample_match; sample_match] (Z.to_nat ((- Z.of_nat 3) mod Z.of_nat 2))).
Proof.
  split; [discriminate|].
  apply (set_matches_cycle SearchModel_init [sample_match; sample_match] 2). discriminate.
Defined.

Lemma plain_match_texts_witness :
  exists m' n,
    search (qt_host (str "a-ab a")) SearchModel_init (str "A") false false true = Some (m', n) /\
    Forall (fun x => end_ x = start x + Z.of_nat (length (str "A")) /\
                     length (text x) = length (str "A") /\
                     prefix_eq false (str "A") (text x) = true /\
                     (false = true -> text x = str "A")) (matches m').
Proof.
  destruct (search (qt_host (str "a-ab a")) SearchModel_init (str "A") false false true)
    as [[m' n]|] eqn:E.
  - exists m', n. split; [reflexivity|].
    exact (plain_match_texts (str "a-ab a") (str "A") false true SearchModel_init m' n E).
  - vm_compute in E. discriminate.
Defined.

Lemma legacy_plain_search_agrees_witness :
  (forall fl from c, 0 <= from ->
     doc_find (qt_host (str "aXa")) (str "a") fl from = Some c -> 0 <= position c) /\
  exists m' n,
    search (qt_host (str "aXa")) SearchModel_init (str "a") true false false = Some (m', n) /\
    svc_search (qt_host (str "aXa")) SearchService_init (str "a") true false false =
      ({| svc_matches := matches m'; svc_current_index := current_index m';
          last_pattern := str "a"; last_case_sensitive := true; last_use_regex := false;
          last_whole_word := false |}, Ok n).
Proof.
  assert (Hq : forall fl from c, 0 <= from ->
     doc_find (qt_host (str "aXa")) (str "a") fl from = Some c -> 0 <= position c).
  { intros fl from c H0 H. destruct (qt_find_after _ _ _ _ _ H). lia. }
  split; [exact Hq|].
  exact (legacy_plain_search_agrees (qt_host (str "aXa")) SearchService_init SearchModel_init
           (str "a") true false Hq).
Defined.

Lemma needs_research_after_search_witness :
  exists s' n,
    svc_search (qt_host (str "aXa")) SearchService_init (str "a") false false false = (s', Ok n) /\
    (needs_research s' (str "a") false false false = false <-> 0 < n) /\
    (forall pat' cs' re' ww', needs_research (service_clear s') pat' cs' re' ww' = true).
Proof.
  destruct (svc_search (qt_host (str "aXa")) SearchService_init (str "a") false false false)
    as [s' [|n]] eqn:E.
  - vm_compute in E. discriminate.
  - exists s', n. split; [reflexivity|].
    exact (needs_research_after_search _ _ _ _ _ _ _ _ E).
Defined.



Lemma editor_search_decorations_witness :
  exists e' count,
    editor_search (qt_host (str "aXa")) (mkColor 1) editor_init (str "a") false = (e', Ok count) /\
    e_svc e' = fst (svc_search (qt_host (str "aXa")) (e_svc editor_init) (str "a") false false false) /\
    count = Z.of_nat (length (svc_matches (e_svc e'))) /\
    layers (e_deco e') SEARCH_MATCHES
      = map (fun m => mkDecoration (cursor m) (mkColor 1) false) (svc_matches (e_svc e')) /\
    (forall l, l <> SEARCH_MATCHES -> layers (e_deco e') l = layers (e_deco editor_init) l) /\
    setExtraSelections_calls (e_deco e') = setExtraSelections_calls (e_deco editor_init) ++
      [map to_extra_selection (flat_map (layers (e_deco e')) all_layers)].
Proof.
  destruct (editor_search (qt_host (str "aXa")) (mkColor 1) editor_init (str "a") false)
    as [e' [|count]] eqn:E.
  - vm_compute in E. discriminate.
  - exists e', count. split; [reflexivity|].
    exact (editor_search_decorations _ _ _ _ _ _ _ E).
Defined.




